(** * Birthday postcard: the frame-driven simulation and control layer

    A shallow embedding of the pieces of the application that carry
    invariants, and the properties established about them:

    - [App]      : the root component (state flags, the wish list, the
                   one-second timer started by [handleBlow]);
    - [Gesture]  : the numeric core of [HandGesture.predictWebcam];
    - [Wish]     : the per-frame callback of [SingleWish];
    - [Confetti] : the per-frame callback of [ConfettiExplosion];
    - [Cake]     : [BirthdayCake]: the boost, the scale, [addPoint] and
                   [getPointColor];
    - [Snow]     : the per-frame callback of [BackgroundSnow];
    - [Flame], [Smoke] : the per-frame callbacks of [FlameParticles] and
                   [SmokeParticle].

    Conventions.  A JavaScript [number] that carries a physical quantity is
    a real number ([R]): rounding of IEEE doubles and of [Float32Array]
    stores is not modelled.  Counters and the clock (milliseconds, the unit
    of [setTimeout]) are natural numbers ([N]).  A string is the list of
    its UTF-16 code units.  A React state setter is an atomic update of the
    corresponding field. *)

From Stdlib Require Import Reals Lra Lia NArith List Bool.
From stdpp Require Import base list.
Import ListNotations.

(* ================================================================== *)
(** * Definitions *)
(* ================================================================== *)

(** ** The root component ([App]) *)

Module App.

(** A string, as the sequence of its UTF-16 code units. *)
Definition jsString := list N.

(** Code units removed by [String.prototype.trim]: ECMAScript WhiteSpace
    (TAB, VT, FF, SP, NBSP, ZWNBSP and the space separators) and
    LineTerminator (LF, CR, LS, PS). *)
Definition isWhiteSpace (c : N) : bool :=
  ((c =? 9) || (c =? 10) || (c =? 11) || (c =? 12) || (c =? 13)
   || (c =? 32) || (c =? 160) || (c =? 5760)
   || ((8192 <=? c) && (c <=? 8202))
   || (c =? 8232) || (c =? 8233) || (c =? 8239) || (c =? 8287)
   || (c =? 12288) || (c =? 65279))%N.

Fixpoint trimStart (s : jsString) : jsString :=
  match s with
  | [] => []
  | c :: r => if isWhiteSpace c then trimStart r else s
  end.

Definition trimEnd (s : jsString) : jsString := rev (trimStart (rev s)).

Definition trim (s : jsString) : jsString := trimEnd (trimStart s).

(** Truthiness of a string: only the empty string is falsy. *)
Definition truthy (s : jsString) : bool :=
  match s with [] => false | _ :: _ => true end.

(** [interface Wish { id: number; text: string }] *)
Record Wish := mkWish { id : N; text : jsString }.

(** The five [useState] cells and the [useRef] counter of [App], together
    with the clock and the queue of pending [setTimeout] callbacks.  Every
    callback in the queue is the one of [handleBlow], [setIsBlown(true)],
    so the queue holds due times only. *)
Record State := mkState {
  isBlown : bool;
  isBlowing : bool;
  hasWished : bool;
  wishes : list Wish;
  inputValue : jsString;
  wishIdCounter : N;
  now : N;
  timers : list N
}.

(** The state at mount: [useState(false)] three times, [useState([])],
    [useState("")], [useRef(0)], no timer. *)
Definition init : State :=
  mkState false false false [] [] 0 0 [].

(** [setTimeout(cb, delay)]: the callback becomes due [delay] ms from now. *)
Definition setTimeout (delay : N) (s : State) : State :=
  mkState (isBlown s) (isBlowing s) (hasWished s) (wishes s) (inputValue s)
          (wishIdCounter s) (now s) (timers s ++ [(now s + delay)%N]).

(** [handleBlow]: [setIsBlowing(true)], then a one-second timer. *)
Definition handleBlow (s : State) : State :=
  setTimeout 1000
    (mkState (isBlown s) true (hasWished s) (wishes s) (inputValue s)
             (wishIdCounter s) (now s) (timers s)).

(** [handleReset]: the four setters; the timer queue is not touched. *)
Definition handleReset (s : State) : State :=
  mkState false false false [] (inputValue s) (wishIdCounter s) (now s)
          (timers s).

(** [handleSendWish]: returns early on a blank input, else appends a wish
    with a fresh id, clears the input and sets [hasWished].
    ([e.preventDefault()] acts on the DOM event only.) *)
Definition handleSendWish (s : State) : State :=
  if negb (truthy (trim (inputValue s))) then s
  else
    let newWish := mkWish (wishIdCounter s) (inputValue s) in
    mkState (isBlown s) (isBlowing s) true (wishes s ++ [newWish]) []
            (wishIdCounter s + 1)%N (now s) (timers s).

(** [onChange={(e) => setInputValue(e.target.value)}] *)
Definition handleInput (v : jsString) (s : State) : State :=
  mkState (isBlown s) (isBlowing s) (hasWished s) (wishes s) v
          (wishIdCounter s) (now s) (timers s).

(** [d] milliseconds pass: every callback that is due by then has run
    ([setIsBlown(true)]) and has left the queue. *)
Definition advance (d : N) (s : State) : State :=
  let now' := (now s + d)%N in
  mkState (isBlown s || existsb (fun due => (due <=? now')%N) (timers s))
          (isBlowing s) (hasWished s) (wishes s) (inputValue s)
          (wishIdCounter s) now'
          (List.filter (fun due => negb (due <=? now')%N) (timers s)).

(** What can happen to the component: a call of one of its handlers, or
    the passing of time. *)
Inductive Event :=
| Blow
| Reset
| SendWish
| Input (v : jsString)
| Advance (d : N).

(** The handlers themselves, as any caller can invoke them. *)
Definition step (s : State) (e : Event) : State :=
  match e with
  | Blow => handleBlow s
  | Reset => handleReset s
  | SendWish => handleSendWish s
  | Input v => handleInput v s
  | Advance d => advance d s
  end.

Definition run (s : State) (l : list Event) : State := fold_left step l s.

(** The rendered controls: the blow button is in the tree only under
    [hasWished && !isBlown && !isBlowing], the reset button only under
    [isBlown], the wish form only under [!hasWished]. *)
Definition blowOffered (s : State) : bool :=
  hasWished s && negb (isBlown s) && negb (isBlowing s).

Definition resetOffered (s : State) : bool := isBlown s.

Definition formOffered (s : State) : bool := negb (hasWished s).

Definition offered (s : State) (e : Event) : bool :=
  match e with
  | Blow => blowOffered s
  | Reset => resetOffered s
  | SendWish => formOffered s
  | Input _ => formOffered s
  | Advance _ => true
  end.

(** An event sent through the page: it reaches its handler only when its
    control is rendered. *)
Definition uiStep (s : State) (e : Event) : State :=
  if offered s e then step s e else s.

Definition uiRun (s : State) (l : list Event) : State := fold_left uiStep l s.

(** A trace all of whose events find their control rendered. *)
Fixpoint uiDriven (s : State) (l : list Event) : bool :=
  match l with
  | [] => true
  | e :: r => offered s e && uiDriven (step s e) r
  end.

Definition isReset (e : Event) : bool :=
  match e with Reset => true | _ => false end.

Definition isBlow (e : Event) : bool :=
  match e with Blow => true | _ => false end.

Definition noReset (l : list Event) : bool := forallb (fun e => negb (isReset e)) l.

Definition noBlow (l : list Event) : bool := forallb (fun e => negb (isBlow e)) l.

(** The lifecycle state.  The source keeps the three booleans only; the
    four names are read off them the way the render conditions do:
    [isBlown] shows the reset stage, [isBlowing] hides the blow button
    while the flame shakes, [hasWished] separates the wish stage from the
    blow stage. *)
Inductive CandleState := Idle | Wishing | Blowing | Blown.

Definition candle (s : State) : CandleState :=
  if isBlown s then Blown
  else if isBlowing s then Blowing
  else if hasWished s then Wishing
  else Idle.

(** *** Invariants of the lifecycle *)

#[local] Open Scope N_scope.

(** The situation after a blow accepted at [t0]: the flame is shaking,
    and until [t0 + 1000] the timer of that blow is pending and nothing is
    due before it. *)
Definition armed (t0 : N) (s : State) : Prop :=
  isBlowing s = true /\ t0 <= now s /\
  ((now s < t0 + 1000 /\ isBlown s = false /\ In (t0 + 1000) (timers s) /\
    Forall (fun due => t0 + 1000 <= due) (timers s))
   \/ (t0 + 1000 <= now s /\ isBlown s = true)).

(** Without a reset a timer is pending only while the flame shakes. *)
Definition calm (s : State) : Prop :=
  isBlowing s = false -> timers s = [] /\ isBlown s = false.

(** Through the rendered controls at most one timer is ever pending, only
    while the flame shakes and is not yet out; and a blown candle has kept
    its [isBlowing] flag. *)
Definition tidy (s : State) : Prop :=
  (isBlown s = true -> isBlowing s = true) /\
  (timers s = [] \/
   (exists due, timers s = [due]) /\ isBlowing s = true /\ isBlown s = false).

(** Nothing but a blow leaves the state of rest with an empty queue. *)
Definition atRest (s : State) : Prop :=
  timers s = [] /\ isBlown s = false /\ isBlowing s = false.

End App.

(** ** The gesture classifier ([HandGesture.predictWebcam]) *)

Module Gesture.
#[local] Open Scope R_scope.

(** One landmark of the detector's output. *)
Record Landmark := mkLandmark { x : R; y : R; z : R }.

(** [Math.sqrt(Math.pow(p.x - wrist.x, 2) + ... )] *)
Definition distFrom (wrist p : Landmark) : R :=
  sqrt ((x p - x wrist) ^ 2 + (y p - y wrist) ^ 2 + (z p - z wrist) ^ 2).

(** [const tips = [4, 8, 12, 16, 20]] *)
Definition tips : list nat := [4; 8; 12; 16; 20]%nat.

(** The body of [tips.forEach]: one more fingertip distance on the total.
    A missing landmark ([landmarks[idx]] undefined, whose [.x] throws) is
    [None]. *)
Definition addTip (landmarks : list Landmark) (wrist : Landmark)
    (acc : option R) (idx : nat) : option R :=
  totalTipDist ← acc;
  tip ← landmarks !! idx;
  Some (totalTipDist + distFrom wrist tip).

(** [scaleRef || 1]: a zero reference is replaced by 1. *)
Definition orOne (scaleRef : R) : R :=
  if Req_dec_T scaleRef 0 then 1 else scaleRef.

Definition scaleRefOf (landmarks : list Landmark) : option R :=
  wrist ← landmarks !! 0%nat;
  middleKnuckle ← landmarks !! 9%nat;
  Some (distFrom wrist middleKnuckle).

Definition avgTipDistOf (landmarks : list Landmark) : option R :=
  wrist ← landmarks !! 0%nat;
  totalTipDist ← fold_left (addTip landmarks wrist) tips (Some 0);
  Some (totalTipDist / 5).

(** [const ratio = avgTipDist / (scaleRef || 1)] *)
Definition ratioOf (landmarks : list Landmark) : option R :=
  scaleRef ← scaleRefOf landmarks;
  avgTipDist ← avgTipDistOf landmarks;
  Some (avgTipDist / orOne scaleRef).

Definition closedRatio : R := 1.3.
Definition openRatio : R := 2.2.

(** The three-way branch on the ratio. *)
Definition factorOfRatio (ratio : R) : R :=
  if Rlt_dec ratio closedRatio then -1
  else if Rlt_dec openRatio ratio then 1
  else ((ratio - closedRatio) / (openRatio - closedRatio)) * 2 - 1.

(** [targetFactor] for one detection result; [results] is
    [results.landmarks], one landmark list per detected hand, and only the
    first hand is read. *)
Definition targetFactor (results : list (list Landmark)) : option R :=
  match results with
  | [] => Some 0
  | landmarks :: _ => ratio ← ratioOf landmarks; Some (factorOfRatio ratio)
  end.

(** [current + (target - current) * 0.15] *)
Definition smooth (current target : R) : R :=
  current + (target - current) * 0.15.

(** [if (Math.abs(v) < 0.1) v = 0] *)
Definition deadzone (v : R) : R :=
  if Rlt_dec (Rabs v) 0.1 then 0 else v.

(** One classifier update of [currentFactor]. *)
Definition update (current target : R) : R := deadzone (smooth current target).

(** The two refs the callback keeps between calls. *)
Record State := mkState { lastVideoTime : R; currentFactor : R }.

(** [useRef(-1)] and [useRef(0)] *)
Definition init : State := mkState (-1) 0.

(** What one call did: nothing (no video, no landmarker, or a frame already
    seen), a value handed to [onGestureChange], or an exception. *)
Inductive Outcome :=
| Skipped
| Emitted (v : R)
| Thrown.

(** One call of [predictWebcam]; [ready] is [video && landmarker],
    [videoTime] is [video.currentTime], [results] what the detector returns
    for that frame. *)
Definition predictWebcam (ready : bool) (videoTime : R)
    (results : list (list Landmark)) (st : State) : State * Outcome :=
  if negb ready then (st, Skipped)
  else if Req_dec_T videoTime (lastVideoTime st) then (st, Skipped)
  else
    match targetFactor results with
    | None => (mkState videoTime (currentFactor st), Thrown)
    | Some target =>
        let v := update (currentFactor st) target in
        (mkState videoTime v, Emitted v)
    end.

(** [n] updates under one and the same target. *)
Fixpoint hold (target : R) (n : nat) (signal : R) : R :=
  match n with
  | O => signal
  | S k => hold target k (update signal target)
  end.

(** The ratio as the prose has it: the mean of the five wrist-to-tip
    distances over the wrist-to-knuckle distance (or over 1). *)
Definition point (landmarks : list Landmark) (i : nat) : Landmark :=
  nth i landmarks (mkLandmark 0 0 0).

Definition scaleReference (landmarks : list Landmark) : R :=
  distFrom (point landmarks 0) (point landmarks 9).

Definition meanTipDistance (landmarks : list Landmark) : R :=
  (distFrom (point landmarks 0) (point landmarks 4)
   + distFrom (point landmarks 0) (point landmarks 8)
   + distFrom (point landmarks 0) (point landmarks 12)
   + distFrom (point landmarks 0) (point landmarks 16)
   + distFrom (point landmarks 0) (point landmarks 20)) / 5.

(** Targets out of the deadzone's reach: 0 itself, and those a signal at
    0 moves far enough towards in one update ([0.15 * |target| >= 0.1]). *)
Definition reachable (target : R) : Prop :=
  target = 0 \/ 2 / 3 <= Rabs target.

End Gesture.

(** ** A wish in flight ([SingleWish]) *)

Module Wish.
#[local] Open Scope R_scope.

Record Vec3 := mkVec3 { vx : R; vy : R; vz : R }.

(** [THREE.QuadraticBezierCurve3]: the three control points. *)
Record Curve := mkCurve { v0 : Vec3; v1 : Vec3; v2 : Vec3 }.

Definition QuadraticBezier (t p0 p1 p2 : R) : R :=
  (1 - t) * (1 - t) * p0 + 2 * (1 - t) * t * p1 + t * t * p2.

Definition getPoint (c : Curve) (t : R) : Vec3 :=
  mkVec3 (QuadraticBezier t (vx (v0 c)) (vx (v1 c)) (vx (v2 c)))
         (QuadraticBezier t (vy (v0 c)) (vy (v1 c)) (vy (v2 c)))
         (QuadraticBezier t (vz (v0 c)) (vz (v1 c)) (vz (v2 c))).

(** The curve of the [useMemo]: [rnd] stands for the [Math.random()] draw
    of the start abscissa. *)
Definition curveOf (rnd : R) (targetPosition : Vec3) : Curve :=
  let start := mkVec3 ((rnd - 0.5) * 4) (-4) 4 in
  let mid := mkVec3 ((vx start + vx targetPosition) / 2) 2
                    ((vz start + vz targetPosition) / 2 + 2) in
  mkCurve start mid targetPosition.

(** [t < 0.5 ? 4 * t * t * t : 1 - Math.pow(-2 * t + 2, 3) / 2] *)
Definition ease (t : R) : R :=
  if Rlt_dec t 0.5 then 4 * t * t * t else 1 - (-2 * t + 2) ^ 3 / 2.

(** The refs and state of one [SingleWish], and the transform of its
    group. *)
Record State := mkState {
  progress : R;
  exploded : bool;
  finished : bool;
  groupRef : bool;
  position : Vec3;
  rotationZ : R;
  rotationY : R;
  scale : Vec3
}.

Definition spawn (c : Curve) : State :=
  mkState 0 false false true (v0 c) 0 0 (mkVec3 1 1 1).

Definition multiplyScalar (v : Vec3) (k : R) : Vec3 :=
  mkVec3 (vx v * k) (vy v * k) (vz v * k).

(** The [useFrame] callback; the boolean tells whether [onImpact] was
    called in this frame. *)
Definition useFrame (c : Curve) (delta : R) (w : State) : State * bool :=
  if finished w || negb (groupRef w) then (w, false)
  else if Rlt_dec (progress w) 1 then
    let progress' := progress w + delta * 0.8 in
    let t := Rmin progress' 1 in
    (mkState progress' (exploded w) (finished w) (groupRef w)
             (getPoint c (ease t))
             (rotationZ w + delta * 5) (rotationY w + delta * 2) (scale w),
     false)
  else if negb (exploded w) then
    (mkState (progress w) true (finished w) (groupRef w) (position w)
             (rotationZ w) (rotationY w) (scale w),
     true)
  else
    let scale' := multiplyScalar (scale w) 1.1 in
    (mkState (progress w) (exploded w)
             (if Rlt_dec 5 (vx scale') then true else finished w)
             (groupRef w) (position w) (rotationZ w) (rotationY w) scale',
     false).

(** Successive frames: the final state and, frame by frame, whether
    [onImpact] was called. *)
Fixpoint frames (c : Curve) (deltas : list R) (w : State) : State * list bool :=
  match deltas with
  | [] => (w, [])
  | delta :: rest =>
      let (w', hit) := useFrame c delta w in
      let (w'', hits) := frames c rest w' in
      (w'', hit :: hits)
  end.

Definition stateAfter (c : Curve) (deltas : list R) : State :=
  fst (frames c deltas (spawn c)).

(** The number of frames that signalled an impact. *)
Definition hitCount (hits : list bool) : nat :=
  length (List.filter (fun b : bool => b) hits).

Definition impacts (c : Curve) (deltas : list R) : nat :=
  hitCount (snd (frames c deltas (spawn c))).

(** Whether the frame of index [k] signalled an impact. *)
Definition impactAt (c : Curve) (deltas : list R) (k : nat) : bool :=
  nth k (snd (frames c deltas (spawn c))) false.

(** What holds of a wish from its first frame on: its group is mounted,
    it has exploded only once arrived, and finished only once exploded. *)
Definition sound (w : State) : Prop :=
  groupRef w = true /\
  (exploded w = true -> 1 <= progress w) /\
  (finished w = true -> exploded w = true).

(** A wish bound for the top of the cake, used for the concrete runs. *)
Definition sampleCurve : Curve := curveOf 0.5 (mkVec3 0 2 0).

End Wish.

(** ** The confetti pool ([ConfettiExplosion]) *)

Module Confetti.
#[local] Open Scope R_scope.

#[export] Instance R_inhabited : Inhabited R := populate 0.

(** [const count = 4000] *)
Definition count : nat := 4000.

(** The four flat arrays of the [useMemo] (three slots per particle) and
    the scale last written into each instance matrix. *)
Record Pool := mkPool {
  positions : list R;
  velocities : list R;
  rotations : list R;
  rotationSpeeds : list R;
  instanceScale : list R
}.

(** The arrays as allocated: [new Float32Array(count * 3)]. *)
Definition wellFormed (n : nat) (p : Pool) : Prop :=
  length (positions p) = (n * 3)%nat /\
  length (velocities p) = (n * 3)%nat /\
  length (rotations p) = (n * 3)%nat /\
  length (rotationSpeeds p) = (n * 3)%nat /\
  length (instanceScale p) = n.

(** The body of the [for] loop for particle [i]. *)
Definition body (dt : R) (p : Pool) (i : nat) : Pool :=
  let idx := (i * 3)%nat in
  let vel := velocities p in
  let vel := <[(idx + 1)%nat := vel !!! (idx + 1)%nat - 15.0 * dt]> vel in
  let vel := <[idx := vel !!! idx * 0.96]> vel in
  let vel := <[(idx + 1)%nat := vel !!! (idx + 1)%nat * 0.96]> vel in
  let vel := <[(idx + 2)%nat := vel !!! (idx + 2)%nat * 0.96]> vel in
  let pos := positions p in
  let pos := <[idx := pos !!! idx + vel !!! idx * dt]> pos in
  let pos := <[(idx + 1)%nat := pos !!! (idx + 1)%nat + vel !!! (idx + 1)%nat * dt]> pos in
  let pos := <[(idx + 2)%nat := pos !!! (idx + 2)%nat + vel !!! (idx + 2)%nat * dt]> pos in
  let spd := rotationSpeeds p in
  let rot := rotations p in
  let rot := <[idx := rot !!! idx + spd !!! idx * dt]> rot in
  let rot := <[(idx + 1)%nat := rot !!! (idx + 1)%nat + spd !!! (idx + 1)%nat * dt]> rot in
  let rot := <[(idx + 2)%nat := rot !!! (idx + 2)%nat + spd !!! (idx + 2)%nat * dt]> rot in
  let s := if Rlt_dec (pos !!! (idx + 1)%nat) (-20) then 0.0 else 1.0 in
  mkPool pos vel rot spd (<[i := s]> (instanceScale p)).

(** The [useFrame] callback over a pool of [n] particles; [meshRef] is
    [meshRef.current] being set. *)
Definition useFrame (n : nat) (meshRef : bool) (delta : R) (p : Pool) : Pool :=
  if negb meshRef then p
  else
    let dt := Rmin delta 0.1 in
    fold_left (body dt) (seq 0 n) p.

Definition ConfettiExplosion (meshRef : bool) (delta : R) (p : Pool) : Pool :=
  useFrame count meshRef delta p.

(** Particle [j] has been integrated from pool [p] to pool [q]: gravity on
    the vertical velocity, then drag on all three, then the position by
    the new velocity, then the rotation; and the cull scale follows the
    new height. *)
Definition integrated (dt : R) (p q : Pool) (j : nat) : Prop :=
  let i := (j * 3)%nat in
  velocities q !!! i = velocities p !!! i * 0.96 /\
  velocities q !!! (i + 1)%nat = (velocities p !!! (i + 1)%nat - 15 * dt) * 0.96 /\
  velocities q !!! (i + 2)%nat = velocities p !!! (i + 2)%nat * 0.96 /\
  positions q !!! i = positions p !!! i + velocities q !!! i * dt /\
  positions q !!! (i + 1)%nat
  = positions p !!! (i + 1)%nat + velocities q !!! (i + 1)%nat * dt /\
  positions q !!! (i + 2)%nat
  = positions p !!! (i + 2)%nat + velocities q !!! (i + 2)%nat * dt /\
  rotations q !!! i = rotations p !!! i + rotationSpeeds p !!! i * dt /\
  rotations q !!! (i + 1)%nat
  = rotations p !!! (i + 1)%nat + rotationSpeeds p !!! (i + 1)%nat * dt /\
  rotations q !!! (i + 2)%nat
  = rotations p !!! (i + 2)%nat + rotationSpeeds p !!! (i + 2)%nat * dt /\
  instanceScale q !!! j
  = (if Rlt_dec (positions q !!! (i + 1)%nat) (-20) then 0 else 1).

(** Particle [j] is in [q] as it was in [p]. *)
Definition untouched (p q : Pool) (j : nat) : Prop :=
  let i := (j * 3)%nat in
  (forall c : nat, (c < 3)%nat ->
     velocities q !!! (i + c)%nat = velocities p !!! (i + c)%nat /\
     positions q !!! (i + c)%nat = positions p !!! (i + c)%nat /\
     rotations q !!! (i + c)%nat = rotations p !!! (i + c)%nat) /\
  instanceScale q !!! j = instanceScale p !!! j.

(** A pool at rest at the origin, every velocity component 1, used for
    the concrete run. *)
Definition samplePool : Pool :=
  mkPool (replicate (count * 3) 0) (replicate (count * 3) 1)
         (replicate (count * 3) 0) (replicate (count * 3) 0)
         (replicate count 1).

End Confetti.

(** ** More of the root component: what its traces keep *)

Module Lifecycle.
Import App.

(** The wish list as the handlers keep it: ids pairwise distinct and below
    the counter, every text with a visible character, and [hasWished]
    set exactly when the list is not empty. *)
Definition wishesSound (s : State) : Prop :=
  NoDup (map id (wishes s)) /\
  Forall (fun w => (id w < wishIdCounter s)%N /\ truthy (trim (text w)) = true)
         (wishes s) /\
  (hasWished s = true <-> wishes s <> []).

(** The edges of the lifecycle as the page offers them (staying in place
    included). *)
Definition edge (a b : CandleState) : bool :=
  match a, b with
  | Idle, Idle | Idle, Wishing => true
  | Wishing, Wishing | Wishing, Blowing => true
  | Blowing, Blowing | Blowing, Blown => true
  | Blown, Blown | Blown, Idle => true
  | _, _ => false
  end.

(** Through the page a blow needs a wish, and the form goes away with the
    first wish. *)
Definition wishedFirst (s : State) : Prop :=
  (isBlowing s = true -> hasWished s = true) /\
  (length (wishes s) <= 1)%nat /\
  (hasWished s = true <-> wishes s <> []).

End Lifecycle.

(** ** Runs of the gesture classifier *)

Module GestureRun.
Import Gesture.
#[local] Open Scope R_scope.

(** What one call of [predictWebcam] is given. *)
Record Frame := mkFrame {
  ready : bool;
  videoTime : R;
  results : list (list Landmark)
}.

Definition call (f : Frame) (st : State) : State * Outcome :=
  predictWebcam (ready f) (videoTime f) (results f) st.

(** Successive calls: the final state and what each call did. *)
Fixpoint feed (fs : list Frame) (st : State) : State * list Outcome :=
  match fs with
  | [] => (st, [])
  | f :: rest =>
      let (st', o) := call f st in
      let (st'', os) := feed rest st' in
      (st'', o :: os)
  end.

(** The hand seen larger or smaller by the factor [k] and moved by
    [(tx, ty, tz)]. *)
Definition moved (k tx ty tz : R) (p : Landmark) : Landmark :=
  mkLandmark (k * x p + tx) (k * y p + ty) (k * z p + tz).

(** The width of the bar, in percent: [Math.abs(debugValue) * 50]. *)
Definition barWidth (debugValue : R) : R := Rabs debugValue * 50.

(** A hand along the first axis: wrist at the origin, the fingertips
    (points 4, 8, 12, 16, 20) at distance [d], every other point, the
    middle knuckle among them, at distance 1. *)
Definition handWithTips (d : R) : list Landmark :=
  let o := mkLandmark 0 0 0 in
  let k := mkLandmark 1 0 0 in
  let t := mkLandmark d 0 0 in
  [o; k; k; k; t; k; k; k; t; k; k; k; t; k; k; k; t; k; k; k; t].

(** Half open: the ratio is 1.975, the target 0.5. *)
Definition halfOpenHand : list Landmark := handWithTips 1.975.

(** Wide open: the ratio is 3, the target 1. *)
Definition openHand : list Landmark := handWithTips 3.

(** A hand seen from the side: wrist at the origin, the other points one
    unit along the first axis. *)
Definition flatHand : list Landmark :=
  mkLandmark 0 0 0 :: replicate 20 (mkLandmark 1 0 0).

End GestureRun.

(** ** More of the wish in flight *)

Module WishRun.
Import Wish.
#[local] Open Scope R_scope.

(** One particle of the cluster, from its three [Math.random()] draws for
    the radius, the azimuth and the inclination. *)
Definition clusterPoint (u1 u2 u3 : R) : Vec3 :=
  let r := u1 * 0.15 in
  let theta := u2 * PI * 2 in
  let phi := acos (2 * u3 - 1) in
  mkVec3 (r * sin phi * cos theta) (r * sin phi * sin theta) (r * cos phi).

Definition frameState (c : Curve) (deltas : list R) (w : State) : State :=
  fst (frames c deltas w).

Definition total (deltas : list R) : R := fold_right Rplus 0 deltas.

End WishRun.

(** ** The cake ([BirthdayCake]) *)

Module Cake.
#[local] Open Scope R_scope.

(** [THREE.MathUtils.lerp]: [(1 - t) * x + t * y]. *)
Definition lerp (x y t : R) : R := (1 - t) * x + t * y.

(** The refs of the component, the three uniforms of its material and the
    scale of its group. *)
Record State := mkState {
  boostRef : R;
  currentScale : R;
  uTime : R;
  uBoost : R;
  uGesture : R;
  groupScale : R
}.

(** [useRef(0)], [useRef(1.0)], the uniforms at 0, the group unscaled. *)
Definition init : State := mkState 0 1.0 0 0 0 1.

(** [handleWishImpact]: [boostRef.current = 2.5]. *)
Definition handleWishImpact (st : State) : State :=
  mkState 2.5 (currentScale st) (uTime st) (uBoost st) (uGesture st)
          (groupScale st).

(** The [useFrame] callback; [materialRef] and [groupRef] tell whether the
    refs are set, [elapsed] is [state.clock.getElapsedTime()]. *)
Definition useFrame (materialRef groupRef : bool) (elapsed delta gestureFactor : R)
    (st : State) : State :=
  let boost' :=
    if materialRef then lerp (boostRef st) 0 (delta * 2.5) else boostRef st in
  let expansion := Rmax 0 gestureFactor in
  let targetScale := 1.0 + expansion * 2.0 in
  let scale' := currentScale st + (targetScale - currentScale st) * 0.1 in
  mkState boost' scale'
          (if materialRef then elapsed else uTime st)
          (if materialRef then boost' else uBoost st)
          (if materialRef then gestureFactor else uGesture st)
          (if groupRef then scale' else groupScale st).

(** Frames in a row, each with its delta and its gesture factor, both refs
    set. *)
Fixpoint frames (fs : list (R * R)) (st : State) : State :=
  match fs with
  | [] => st
  | (delta, gestureFactor) :: rest =>
      frames rest (useFrame true true 0 delta gestureFactor st)
  end.

(** The sizes of the geometry. *)
Definition PARTICLES_CAKE : N := 250000.
Definition bottomCount : N := 120000.
Definition topCount : N := 80000.
Definition plateCount : N := 50000.

(** The three buffers of the [useMemo] and its running index. *)
Record Buffer := mkBuffer {
  pos : list R;
  col : list R;
  sz : list R;
  idx : nat
}.

(** A colour, by its three channels. *)
Record Color := mkColor { r : R; g : R; b : R }.

(** The buffers as allocated for [cap] points, index at 0. *)
Definition allocated (cap : nat) (bf : Buffer) : Prop :=
  length (pos bf) = (cap * 3)%nat /\
  length (col bf) = (cap * 3)%nat /\
  length (sz bf) = cap /\
  idx bf = 0%nat.

(** One point to add. *)
Record Point := mkPoint { px : R; py : R; pz : R; pc : Color; ps : R }.

(** [addPoint]: nothing once the buffers are full ([idx >= PARTICLES_CAKE]),
    else the point goes to slot [idx] and the index moves on. *)
Definition addPoint (cap : nat) (bf : Buffer) (p : Point) : Buffer :=
  if (cap <=? idx bf)%nat then bf
  else
    let i := idx bf in
    mkBuffer
      (<[(i * 3 + 2)%nat := pz p]>
         (<[(i * 3 + 1)%nat := py p]> (<[(i * 3)%nat := px p]> (pos bf))))
      (<[(i * 3 + 2)%nat := b (pc p)]>
         (<[(i * 3 + 1)%nat := g (pc p)]> (<[(i * 3)%nat := r (pc p)]> (col bf))))
      (<[i := ps p]> (sz bf))
      (S i).

Definition addPoints (cap : nat) (points : list Point) (bf : Buffer) : Buffer :=
  fold_left (addPoint cap) points bf.

(** The four colours of the cake. *)
Inductive Tint :=
| COLOR_WARM_PINK
| COLOR_SOFT_PINK
| COLOR_LIGHT_PINK
| COLOR_GOLD.

(** [getPointColor]; [rnd1] and [rnd2] are the [Math.random()] draws in
    the order the branch taken makes them. *)
Definition getPointColor (rnd1 rnd2 : R) (r maxR y totalHeight : R) : Tint :=
  let rRatio := r / maxR in
  let yNorm := Rmin (Rmax (y / totalHeight) 0.0) 1.0 in
  let heightFactor := 1.0 - yNorm in
  if Rlt_dec 0.88 rRatio then
    let pLightPink := 0.3 * heightFactor in
    let pGold := 0.2 * heightFactor in
    if Rlt_dec rnd1 pLightPink then COLOR_LIGHT_PINK
    else if Rlt_dec rnd1 (pLightPink + pGold) then COLOR_GOLD
    else if Rlt_dec 0.5 rnd2 then COLOR_WARM_PINK else COLOR_SOFT_PINK
  else
    if Rlt_dec 0.6 rnd1 then COLOR_WARM_PINK else COLOR_SOFT_PINK.

End Cake.

(** ** The falling snow ([BackgroundSnow]) *)

Module Snow.
#[local] Open Scope R_scope.
#[local] Existing Instance Confetti.R_inhabited.

(** The position array (three slots per flake) and the speed array. *)
Record Flakes := mkFlakes { positions : list R; speed : list R }.

Definition wellFormed (n : nat) (f : Flakes) : Prop :=
  length (positions f) = (n * 3)%nat /\ length (speed f) = n.

(** The body of the loop for flake [i]: fall, and wrap below -10. *)
Definition body (delta : R) (f : Flakes) (i : nat) : Flakes :=
  let p := positions f in
  let p := <[(i * 3 + 1)%nat := p !!! (i * 3 + 1)%nat - speed f !!! i * delta]> p in
  let p :=
    if Rlt_dec (p !!! (i * 3 + 1)%nat) (-10) then <[(i * 3 + 1)%nat := 10]> p
    else p in
  mkFlakes p (speed f).

(** The [useFrame] callback over [n] flakes; [ref] is [ref.current] being
    set. *)
Definition useFrame (n : nat) (ref : bool) (delta : R) (f : Flakes) : Flakes :=
  if negb ref then f else fold_left (body delta) (seq 0 n) f.

(** Flake [i] after a frame, in terms of the flake before it. *)
Definition fallen (delta : R) (f f' : Flakes) (i : nat) : Prop :=
  let y := positions f !!! (i * 3 + 1)%nat - speed f !!! i * delta in
  positions f' !!! (i * 3)%nat = positions f !!! (i * 3)%nat /\
  positions f' !!! (i * 3 + 2)%nat = positions f !!! (i * 3 + 2)%nat /\
  positions f' !!! (i * 3 + 1)%nat = (if Rlt_dec y (-10) then 10 else y).

Definition same (f f' : Flakes) (i : nat) : Prop :=
  forall c : nat, (c < 3)%nat ->
    positions f' !!! (i * 3 + c)%nat = positions f !!! (i * 3 + c)%nat.

End Snow.

(** ** The flame and the smoke ([Candle]) *)

Module Flame.
#[local] Open Scope R_scope.

(** The two refs of [FlameParticles], the uniforms of its material and
    the point light. *)
Record State := mkState {
  blownUniform : R;
  blowingUniform : R;
  uTime : R;
  uBlown : R;
  uBlowing : R;
  intensity : R;
  lightX : R;
  lightZ : R
}.

(** The [useFrame] callback; [time] is [state.clock.getElapsedTime()]. *)
Definition useFrame (isBlown isBlowing materialRef lightRef : bool)
    (time delta : R) (st : State) : State :=
  let targetBlown := if isBlown then 1.0 else 0.0 in
  let blown' := Cake.lerp (blownUniform st) targetBlown (delta * 3.0) in
  let targetBlowing := if isBlowing then 1.0 else 0.0 in
  let blowing' := Cake.lerp (blowingUniform st) targetBlowing (delta * 4.0) in
  let flicker := sin (time * 25) * 0.05 + sin (time * 60) * 0.02 in
  let baseIntensity := 1.2 in
  let shake := blowing' * 0.05 in
  mkState blown' blowing'
          (if materialRef then time else uTime st)
          (if materialRef then blown' else uBlown st)
          (if materialRef then blowing' else uBlowing st)
          (if lightRef then Rmax 0 ((baseIntensity + flicker) * (1.0 - blown'))
           else intensity st)
          (if lightRef then sin (time * 10) * (0.01 + shake) else lightX st)
          (if lightRef then cos (time * 8) * (0.01 + shake) else lightZ st).

(** At mount: both refs at 0, the uniforms at 0, the light with the
    default intensity of a point light, at the origin of its group. *)
Definition init : State := mkState 0 0 0 0 0 1 0 0.

(** Frames in a row, each with the props of the render it belongs to
    ([isBlown], [isBlowing]), its clock time and its delta, both refs
    set. *)
Fixpoint frames (fs : list (bool * bool * R * R)) (st : State) : State :=
  match fs with
  | [] => st
  | (isBlown, isBlowing, time, delta) :: rest =>
      frames rest (useFrame isBlown isBlowing true true time delta st)
  end.

End Flame.

Module Smoke.
#[local] Open Scope R_scope.

(** One [SmokeParticle]: the position and the (uniform) scale of its
    instance, whether its start timer has fired, whether its ref is set. *)
Record State := mkState {
  posX : R;
  posY : R;
  posZ : R;
  scale : R;
  started : bool;
  ref : bool
}.

(** The instance as mounted: [scale={0}], [position={[0, 0, 0]}]. *)
Definition mounted : State := mkState 0 0 0 0 false true.

(** The callback of the start timer: [setStarted(true)]. *)
Definition start (st : State) : State :=
  mkState (posX st) (posY st) (posZ st) (scale st) true (ref st).

(** The [useFrame] callback, for the particle's [velocity] and [scale]
    props. *)
Definition useFrame (vel0 vel1 vel2 scale0 : R) (st : State) : State :=
  if negb (ref st) || negb (started st) then
    if ref st then
      mkState (posX st) (posY st) (posZ st) 0 (started st) (ref st)
    else st
  else
    let x' := posX st + vel0 in
    let y' := posY st + vel1 in
    let z' := posZ st + vel2 in
    let age := y' in
    let currentScale := scale0 + age * 0.5 in
    let currentScale :=
      if Rlt_dec 1.5 age then Rmax 0 (currentScale - 0.05) else currentScale in
    mkState x' y' z' currentScale (started st) (ref st).

Fixpoint frames (vel0 vel1 vel2 scale0 : R) (n : nat) (st : State) : State :=
  match n with
  | O => st
  | S k => frames vel0 vel1 vel2 scale0 k (useFrame vel0 vel1 vel2 scale0 st)
  end.

End Smoke.

(** ** More of the confetti pool *)

Module ConfettiRun.
Import Confetti.
#[local] Open Scope R_scope.

(** Frames in a row over a pool of [n] particles, mesh mounted. *)
Definition frames (n : nat) (deltas : list R) (p : Pool) : Pool :=
  fold_left (fun q delta => useFrame n true delta q) deltas p.

End ConfettiRun.

(* ================================================================== *)
(** * Properties *)
(* ================================================================== *)

Ltac split_abs :=
  unfold Rabs in *;
  repeat match goal with
         | |- context [Rcase_abs ?a] => destruct (Rcase_abs a)
         | H : context [Rcase_abs ?a] |- _ => destruct (Rcase_abs a)
         end.

Ltac slots :=
  repeat first
    [ rewrite list_lookup_total_insert_ne by lia
    | rewrite list_lookup_total_insert_eq by (rewrite ?length_insert; lia) ];
  try reflexivity; try lra.

(** ** The candle lifecycle *)

Section CandleLifecycle.
Import App.

#[local] Open Scope N_scope.

(** Sample runs. *)
Example trim_sample : trim [32; 104; 32; 105; 10] = [104; 32; 105].
Proof. reflexivity. Qed.

Example first_wish :
  wishes (run init [Input [104; 105]; SendWish]) = [mkWish 0 [104; 105]] /\
  inputValue (run init [Input [104; 105]; SendWish]) = [] /\
  candle (run init [Input [104; 105]; SendWish]) = Wishing.
Proof. repeat split. Qed.

Example full_cycle :
  candle (run init [Input [104]; SendWish; Blow]) = Blowing /\
  candle (run init [Input [104]; SendWish; Blow; Advance 999]) = Blowing /\
  candle (run init [Input [104]; SendWish; Blow; Advance 999; Advance 1]) = Blown /\
  candle (run init [Input [104]; SendWish; Blow; Advance 1000; Reset]) = Idle.
Proof. repeat split. Qed.

Example gate_drops_early_blow :
  uiRun init [Blow; Advance 1000] = advance 1000 init /\
  uiDriven init [Blow] = false.
Proof. split; reflexivity. Qed.

Lemma run_app (s : State) (l1 l2 : list Event) :
  run s (l1 ++ l2) = run (run s l1) l2.
Proof. unfold run. apply fold_left_app. Qed.

Lemma run_snoc (s : State) (l : list Event) (e : Event) :
  run s (l ++ [e]) = step (run s l) e.
Proof. rewrite run_app. reflexivity. Qed.

(** A trace whose every event finds its control is the same run whether
    the gate is consulted or not. *)
Lemma uiDriven_run (s : State) (l : list Event) :
  uiDriven s l = true -> uiRun s l = run s l.
Proof.
  revert s. induction l as [|a l IH]; intros s H; simpl in *.
  - reflexivity.
  - apply andb_true_iff in H as [Ha Hl].
    unfold uiRun, run in *. simpl. unfold uiStep at 2. rewrite Ha.
    now apply IH.
Qed.

Lemma noReset_app (l1 l2 : list Event) :
  noReset (l1 ++ l2) = noReset l1 && noReset l2.
Proof. unfold noReset. apply forallb_app. Qed.

(** Two spans of time add up. *)
Lemma advance_add (d1 d2 : N) (s : State) :
  advance d2 (advance d1 s) = advance (d1 + d2) s.
Proof.
  destruct s as [b bl h w i c n t]. unfold advance; simpl.
  rewrite N.add_assoc. f_equal.
  - rewrite <- orb_assoc. f_equal.
    induction t as [|a t IH]; simpl; [reflexivity|].
    destruct (a <=? n + d1) eqn:E1; destruct (a <=? n + d1 + d2) eqn:E2;
      simpl; rewrite ?E2; simpl; rewrite <- ?IH;
      try (apply N.leb_le in E1; apply N.leb_gt in E2; lia);
      repeat match goal with
             | |- context [existsb ?f ?l] => destruct (existsb f l)
             end; reflexivity.
  - induction t as [|a t IH]; simpl; [reflexivity|].
    destruct (a <=? n + d1) eqn:E1; destruct (a <=? n + d1 + d2) eqn:E2;
      simpl; rewrite ?E2; simpl; rewrite ?IH;
      try (apply N.leb_le in E1; apply N.leb_gt in E2; lia);
      reflexivity.
Qed.

Lemma existsb_none (n : N) (t : list N) :
  Forall (fun due => n < due) t -> existsb (fun due => due <=? n) t = false.
Proof.
  induction 1 as [|a t Ha _ IH]; simpl; [reflexivity|].
  rewrite IH. destruct (N.leb_spec a n); [lia|reflexivity].
Qed.

Lemma filter_all (n : N) (t : list N) :
  Forall (fun due => n < due) t ->
  List.filter (fun due => negb (due <=? n)) t = t.
Proof.
  induction 1 as [|a t Ha _ IH]; simpl; [reflexivity|].
  rewrite IH. destruct (N.leb_spec a n); [lia|reflexivity].
Qed.

Lemma existsb_due (n due : N) (t : list N) :
  In due t -> due <= n -> existsb (fun d => d <=? n) t = true.
Proof.
  intros Hin Hle. apply existsb_exists. exists due. split; [exact Hin|].
  now apply N.leb_le.
Qed.

Lemma armed_step (t0 : N) (s : State) (e : Event) :
  armed t0 s -> isReset e = false -> armed t0 (step s e).
Proof.
  intros (Hbl & Hnow & Hcase) He.
  destruct e as [| | |v|d]; try discriminate He; simpl.
  - (* Blow *)
    unfold armed, handleBlow, setTimeout; simpl.
    split; [reflexivity|]. split; [exact Hnow|].
    destruct Hcase as [(Hlt & Hb & Hin & Hall)|(Hge & Hb)]; [left|right].
    + repeat split; try assumption.
      * apply in_or_app. now left.
      * apply Forall_app. split; [exact Hall|].
        constructor; [lia|constructor].
    + now split.
  - (* SendWish *)
    unfold armed, handleSendWish.
    destruct (negb (truthy (trim (inputValue s)))); simpl; auto.
  - (* Input *)
    unfold armed, handleInput; simpl; auto.
  - (* Advance *)
    unfold armed, advance; simpl.
    split; [exact Hbl|]. split; [lia|].
    destruct Hcase as [(Hlt & Hb & Hin & Hall)|(Hge & Hb)].
    + destruct (N.lt_ge_cases (now s + d) (t0 + 1000)) as [Hl|Hg].
      * left. assert (Hfar : Forall (fun due => now s + d < due) (timers s)).
        { eapply Forall_impl; [exact Hall|]. simpl. intros; lia. }
        rewrite existsb_none, filter_all by exact Hfar.
        rewrite Hb. repeat split; assumption.
      * right. split; [exact Hg|].
        rewrite (existsb_due _ (t0 + 1000)) by assumption.
        apply orb_true_r.
    + right. split; [lia|]. now rewrite Hb.
Qed.

Lemma armed_run (t0 : N) (l : list Event) (s : State) :
  armed t0 s -> noReset l = true -> armed t0 (run s l).
Proof.
  revert s. induction l as [|e l IH]; intros s Hs Hl; simpl in *.
  - exact Hs.
  - apply andb_true_iff in Hl as [He Hl].
    apply IH; [|exact Hl]. apply armed_step; [exact Hs|].
    now destruct (isReset e).
Qed.

Lemma armed_blow (s : State) :
  Forall (fun due => now s + 1000 <= due) (timers s) ->
  isBlown s = false -> armed (now s) (handleBlow s).
Proof.
  intros Ht Hb. unfold armed, handleBlow, setTimeout; simpl.
  split; [reflexivity|]. split; [lia|]. left.
  split; [lia|]. split; [exact Hb|]. split.
  - apply in_or_app. right. now left.
  - apply Forall_app. split; [exact Ht|].
    constructor; [lia|constructor].
Qed.

Lemma armed_candle (t0 : N) (s : State) :
  armed t0 s ->
  (candle s = Blown <-> t0 + 1000 <= now s) /\
  (candle s = Blowing <-> now s < t0 + 1000).
Proof.
  intros (Hbl & _ & [(Hlt & Hb & _)|(Hge & Hb)]); unfold candle;
    rewrite Hb, ?Hbl; split; split; intros; try congruence; try lia.
Qed.

Lemma calm_step (s : State) (e : Event) :
  calm s -> isReset e = false -> calm (step s e).
Proof.
  unfold calm. intros Hs He.
  destruct e as [| | |v|d]; try discriminate He; simpl.
  - discriminate.
  - unfold handleSendWish.
    destruct (negb (truthy (trim (inputValue s)))); simpl; auto.
  - exact Hs.
  - intros Hbl. destruct (Hs Hbl) as [Ht Hb]. rewrite Ht, Hb. now split.
Qed.

Lemma calm_run (l : list Event) (s : State) :
  calm s -> noReset l = true -> calm (run s l).
Proof.
  revert s. induction l as [|e l IH]; intros s Hs Hl; simpl in *.
  - exact Hs.
  - apply andb_true_iff in Hl as [He Hl].
    apply IH; [|exact Hl]. apply calm_step; [exact Hs|].
    now destruct (isReset e).
Qed.

Lemma tidy_init : tidy init.
Proof. split; [discriminate|now left]. Qed.

Lemma tidy_uiStep (s : State) (e : Event) : tidy s -> tidy (uiStep s e).
Proof.
  intros [Hb Ht]. unfold uiStep.
  destruct (offered s e) eqn:Hoff; [|now split].
  destruct e as [| | |v|d]; simpl in *.
  - (* Blow *)
    unfold blowOffered in Hoff.
    apply andb_true_iff in Hoff as [Hoff Hbl].
    apply andb_true_iff in Hoff as [_ Hbn].
    apply negb_true_iff in Hbl, Hbn.
    destruct Ht as [Ht|(_ & Hbl' & _)]; [|congruence].
    unfold tidy, handleBlow, setTimeout; simpl. rewrite Ht, Hbn. split.
    + discriminate.
    + right. repeat split. now exists (now s + 1000).
  - (* Reset *)
    unfold resetOffered in Hoff.
    destruct Ht as [Ht|(_ & _ & Hbn)]; [|congruence].
    unfold tidy, handleReset; simpl. split; [discriminate|now left].
  - (* SendWish *)
    unfold tidy, handleSendWish.
    destruct (negb (truthy (trim (inputValue s)))); simpl; auto.
  - (* Input *)
    unfold tidy, handleInput; simpl; auto.
  - (* Advance *)
    unfold tidy, advance; simpl.
    destruct Ht as [Ht|((due & Ht) & Hbl & Hbn)]; rewrite Ht; simpl.
    + rewrite orb_false_r. split; [exact Hb|now left].
    + split; [intros _; exact Hbl|].
      destruct (due <=? now s + d); simpl; [now left|].
      right. rewrite Hbn. repeat split; [now exists due|exact Hbl].
Qed.

Lemma tidy_uiRun (l : list Event) (s : State) : tidy s -> tidy (uiRun s l).
Proof.
  revert s. induction l as [|e l IH]; intros s Hs; simpl.
  - exact Hs.
  - apply IH. now apply tidy_uiStep.
Qed.

(** At rest (candle neither shaking nor out) no timer is pending, in a
    trace without reset as well as in one driven through the controls. *)
Lemma rest_no_timer (pre : list Event) :
  noReset pre = true \/ uiDriven init pre = true ->
  isBlowing (run init pre) = false ->
  timers (run init pre) = [] /\ isBlown (run init pre) = false.
Proof.
  intros [Hnr|Hui] Hbl.
  - apply (calm_run pre init); [|exact Hnr|exact Hbl].
    intros _. now split.
  - rewrite <- (uiDriven_run _ _ Hui) in *.
    destruct (tidy_uiRun pre init tidy_init) as [Hb Ht]. split.
    + destruct Ht as [Ht|(_ & Hbl' & _)]; [exact Ht|congruence].
    + destruct (isBlown (uiRun init pre)); [|reflexivity].
      rewrite Hb in Hbl by reflexivity. discriminate.
Qed.

Lemma candle_rest (s : State) :
  candle s = Idle \/ candle s = Wishing ->
  isBlown s = false /\ isBlowing s = false.
Proof.
  unfold candle. destruct (isBlown s), (isBlowing s), (hasWished s);
    intros [H|H]; try discriminate H; now split.
Qed.

End CandleLifecycle.

Section CandleClaims.
Import App.

#[local] Open Scope N_scope.

(** A timer left by an earlier blow brings the next one forward: blow,
    reset half a second later, blow again at once (accepted in Idle, no
    reset after it), and half a second after that second blow the candle
    is Blown. *)
Lemma stale_timer_blows_early :
  candle (run init [Blow; Advance 500; Reset]) = Idle /\
  now (run init [Blow; Advance 500; Reset]) = 500 /\
  noReset [Advance 500] = true /\
  candle (run (step (run init [Blow; Advance 500; Reset]) Blow) [Advance 500])
  = Blown /\
  now (run (step (run init [Blow; Advance 500; Reset]) Blow) [Advance 500])
  < 500 + 1000.
Proof. repeat split. Qed.

(** C1, as the code has it.  A blow accepted while the candle is Idle or
    Wishing, at a moment [t0] when no timer of an earlier blow is pending
    that is due before [t0 + 1000] (in particular when none is pending),
    in a trace where no reset occurs afterwards: the state is Blowing at
    once; at every later point of the trace it is Blown exactly when at
    least 1000 ms have passed since the blow and Blowing exactly when
    fewer have; and the only step that enters Blown is a passage of
    time, taken from Blowing. *)
Theorem blow_then_blown_after_one_second :
  forall pre post : list Event,
    Forall (fun due => now (run init pre) + 1000 <= due)
           (timers (run init pre)) ->
    noReset post = true ->
    candle (run init pre) = Idle \/ candle (run init pre) = Wishing ->
    let s0 := run init pre in
    let t0 := now s0 in
    candle (step s0 Blow) = Blowing /\
    (forall seen rest, post = seen ++ rest ->
       let s := run (step s0 Blow) seen in
       (candle s = Blown <-> t0 + 1000 <= now s) /\
       (candle s = Blowing <-> now s < t0 + 1000)) /\
    (forall seen e rest, post = seen ++ e :: rest ->
       let s := run (step s0 Blow) seen in
       candle s <> Blown -> candle (step s e) = Blown ->
       candle s = Blowing /\ exists d, e = Advance d /\ 0 < d).
Proof.
  intros pre post Hpre Hpost Hrest s0 t0.
  destruct (candle_rest _ Hrest) as [Hb Hbl].
  assert (Harmed : armed t0 (step s0 Blow)) by now apply armed_blow.
  assert (Hseen : forall seen rest, post = seen ++ rest ->
                  armed t0 (run (step s0 Blow) seen)).
  { intros seen rest ->. rewrite noReset_app in Hpost.
    apply andb_true_iff in Hpost as [Hs _]. now apply armed_run. }
  split; [|split].
  - destruct (armed_candle _ _ Harmed) as [_ H]. apply H.
    simpl. unfold t0. lia.
  - intros seen rest Heq s. apply armed_candle. eapply Hseen; eassumption.
  - intros seen e rest Heq s Hnot Hbecomes.
    assert (Hs : armed t0 s) by (eapply Hseen; eassumption).
    assert (He : isReset e = false).
    { subst post. rewrite noReset_app in Hpost.
      apply andb_true_iff in Hpost as [_ Hp]. simpl in Hp.
      apply andb_true_iff in Hp as [Hp _]. now destruct (isReset e). }
    assert (Hs' : armed t0 (step s e)) by now apply armed_step.
    destruct (armed_candle _ _ Hs) as [HB HBl].
    destruct (armed_candle _ _ Hs') as [HB' _].
    assert (Hlt : now s < t0 + 1000).
    { destruct (N.lt_ge_cases (now s) (t0 + 1000)) as [H|H]; [exact H|].
      now apply HB in H. }
    split; [now apply HBl|].
    apply HB' in Hbecomes.
    destruct e as [| | |v|d]; simpl in Hbecomes.
    + lia.
    + discriminate He.
    + unfold handleSendWish in Hbecomes.
      destruct (negb (truthy (trim (inputValue s)))); simpl in Hbecomes; lia.
    + lia.
    + exists d. split; [reflexivity|lia].
Qed.

(** A second round after a full one: wish, blow, a second passes, reset,
    wish again, blow again at 1000 ms. *)
Lemma blow_then_blown_after_one_second_witness :
  candle (run init [Input [104]; SendWish; Blow; Advance 1000; Reset;
                    Input [33]; SendWish; Blow; Advance 400]) = Blowing /\
  candle (run init [Input [104]; SendWish; Blow; Advance 1000; Reset;
                    Input [33]; SendWish; Blow; Advance 400; Advance 600])
  = Blown.
Proof.
  assert (Hq : Forall
            (fun due =>
               now (run init [Input [104]; SendWish; Blow; Advance 1000;
                              Reset; Input [33]; SendWish]) + 1000 <= due)
            (timers (run init [Input [104]; SendWish; Blow; Advance 1000;
                               Reset; Input [33]; SendWish]))).
  { vm_compute. constructor. }
  destruct (blow_then_blown_after_one_second
              [Input [104]; SendWish; Blow; Advance 1000; Reset;
               Input [33]; SendWish]
              [Advance 400; Advance 600]
              Hq eq_refl (or_intror eq_refl))
    as (_ & Hat & _).
  split.
  - apply (Hat [Advance 400] [Advance 600] eq_refl). vm_compute. reflexivity.
  - apply (Hat [Advance 400; Advance 600] [] eq_refl). vm_compute. discriminate.
Defined.

(** The condition holds whenever the candle is at rest in a trace without
    reset, or in one driven through the rendered controls. *)
Lemma rest_no_stale_timer (pre : list Event) :
  noReset pre = true \/ uiDriven init pre = true ->
  candle (run init pre) = Idle \/ candle (run init pre) = Wishing ->
  Forall (fun due => now (run init pre) + 1000 <= due) (timers (run init pre)).
Proof.
  intros Hpre Hrest. destruct (candle_rest _ Hrest) as [_ Hbl].
  destruct (rest_no_timer pre Hpre Hbl) as [-> _]. constructor.
Qed.

(** The handler has no guard of its own: called while the flame already
    shakes it is not a no-op, it queues a second timer, due one second
    after the second call. *)
Lemma second_blow_queues_second_timer :
  candle (run init [Blow; Advance 400]) = Blowing /\
  step (run init [Blow; Advance 400]) Blow <> run init [Blow; Advance 400] /\
  timers (step (run init [Blow; Advance 400]) Blow) = [1000; 1400].
Proof.
  split; [reflexivity|]. split; [|reflexivity].
  intros H. apply (f_equal timers) in H. vm_compute in H. discriminate H.
Qed.

(** Every call of [handleBlow] queues one more timer. *)
Lemma handleBlow_timers (s : State) :
  timers (handleBlow s) = timers s ++ [now s + 1000].
Proof. reflexivity. Qed.

(** Through the controls at most one timer is pending. *)
Lemma ui_at_most_one_timer (l : list Event) :
  (length (timers (uiRun init l)) <= 1)%nat.
Proof.
  destruct (tidy_uiRun l init tidy_init) as [_ [Ht|((due & Ht) & _)]];
    rewrite Ht; simpl; lia.
Qed.

(** C2, as the code has it.  The blow button is rendered only under
    [hasWished && !isBlown && !isBlowing]: in a state reached through the
    controls in which the candle is Blowing or Blown, a blow sent through
    the page changes nothing, and at most one timer is pending before and
    after it.  [handleBlow] itself is unguarded: called directly in such
    a state it keeps every flag and queues one more timer. *)
Theorem blow_while_blowing_or_blown :
  forall l : list Event,
    candle (uiRun init l) = Blowing \/ candle (uiRun init l) = Blown ->
    let s := uiRun init l in
    uiStep s Blow = s /\
    (length (timers s) <= 1)%nat /\
    (length (timers (uiRun init (l ++ [Blow]))) <= 1)%nat /\
    handleBlow s = setTimeout 1000 s /\
    length (timers (handleBlow s)) = S (length (timers s)).
Proof.
  intros l Hc s.
  assert (Hbl : isBlowing s = true).
  { destruct (tidy_uiRun l init tidy_init) as [Hb _]. fold s in Hb.
    unfold candle in Hc. fold s in Hc.
    destruct (isBlown s); [now apply Hb|].
    destruct (isBlowing s); [reflexivity|].
    destruct (hasWished s); destruct Hc; discriminate. }
  split; [|split; [|split; [|split]]].
  - unfold uiStep; simpl. unfold blowOffered. rewrite Hbl.
    now rewrite andb_false_r.
  - apply ui_at_most_one_timer.
  - apply ui_at_most_one_timer.
  - unfold handleBlow. rewrite <- Hbl. now destruct s.
  - rewrite handleBlow_timers, length_app. simpl. lia.
Qed.

Lemma blow_while_blowing_or_blown_witness :
  uiStep (uiRun init [Input [104]; SendWish; Blow]) Blow
  = uiRun init [Input [104]; SendWish; Blow].
Proof.
  apply (blow_while_blowing_or_blown [Input [104]; SendWish; Blow]).
  left. reflexivity.
Defined.

(** A reset that arrives while the timer is pending does not cancel it:
    half a second after a blow the reset brings the candle back to Idle,
    and half a second later, with no new blow, the candle is Blown. *)
Lemma reset_leaves_stale_timer :
  candle (run init [Blow; Advance 500]) = Blowing /\
  candle (run init [Blow; Advance 500; Reset]) = Idle /\
  noBlow [Advance 500] = true /\
  candle (run init ([Blow; Advance 500; Reset] ++ [Advance 500])) = Blown.
Proof. repeat split. Qed.

Lemma atRest_step (s : State) (e : Event) :
  atRest s -> isBlow e = false -> atRest (step s e).
Proof.
  intros (Ht & Hb & Hbl) He.
  destruct e as [| | |v|d]; try discriminate He; simpl.
  - now repeat split.
  - unfold atRest, handleSendWish.
    destruct (negb (truthy (trim (inputValue s)))); simpl; auto.
  - now repeat split.
  - unfold atRest, advance; simpl. rewrite Ht, Hb. now repeat split.
Qed.

Lemma atRest_run (l : list Event) (s : State) :
  atRest s -> noBlow l = true -> atRest (run s l).
Proof.
  revert s. induction l as [|e l IH]; intros s Hs Hl; simpl in *.
  - exact Hs.
  - apply andb_true_iff in Hl as [He Hl].
    apply IH; [|exact Hl]. apply atRest_step; [exact Hs|].
    now destruct (isBlow e).
Qed.

(** C3, as the code has it.  [handleReset] leaves the timer queue as it
    is.  The reset button is rendered only under [isBlown], that is after
    the timer has fired: in a trace driven through the controls no timer
    is pending when a reset is accepted, and from the reset on the candle
    is Idle or Wishing, never Blowing or Blown, as long as no blow
    occurs. *)
Theorem reset_then_no_stale_transition :
  forall pre post : list Event,
    uiDriven init pre = true ->
    resetOffered (run init pre) = true ->
    noBlow post = true ->
    let s := run init pre in
    timers (handleReset s) = timers s /\
    timers s = [] /\
    candle (step s Reset) = Idle /\
    (candle (run (step s Reset) post) = Idle \/
     candle (run (step s Reset) post) = Wishing).
Proof.
  intros pre post Hui Hoff Hpost s.
  assert (Ht : timers s = []).
  { unfold s. rewrite <- (uiDriven_run _ _ Hui) in *.
    destruct (tidy_uiRun pre init tidy_init) as [_ [Ht|(_ & _ & Hb)]];
      [exact Ht|]. unfold resetOffered in Hoff. congruence. }
  assert (Hr : atRest (step s Reset)) by (repeat split; exact Ht).
  split; [reflexivity|]. split; [exact Ht|]. split; [reflexivity|].
  destruct (atRest_run post _ Hr Hpost) as (_ & Hb & Hbl).
  unfold candle. rewrite Hb, Hbl.
  destruct (hasWished _); [now right|now left].
Qed.

Lemma reset_then_no_stale_transition_witness :
  candle (run init ([Input [104]; SendWish; Blow; Advance 1000; Reset]
                    ++ [Advance 5000; Input [33]; SendWish])) = Wishing.
Proof.
  destruct (reset_then_no_stale_transition
              [Input [104]; SendWish; Blow; Advance 1000]
              [Advance 5000; Input [33]; SendWish]
              eq_refl eq_refl eq_refl) as (_ & _ & _ & [H|H]).
  - vm_compute in H. discriminate H.
  - exact H.
Defined.

(** ** Wish submission *)

Lemma trimStart_blank (v : jsString) :
  Forall (fun c => isWhiteSpace c = true) v -> trimStart v = [].
Proof.
  induction 1 as [|c v Hc _ IH]; simpl; [reflexivity|]. now rewrite Hc.
Qed.

Lemma trim_blank (v : jsString) :
  Forall (fun c => isWhiteSpace c = true) v -> trim v = [].
Proof. intros H. unfold trim. now rewrite trimStart_blank. Qed.

(** A text with a visible character is accepted: one wish more, with the
    counter's value as id; the counter moves on, the input is cleared. *)
Lemma handleSendWish_accepts (s : State) :
  truthy (trim (inputValue s)) = true ->
  wishes (handleSendWish s) = wishes s ++ [mkWish (wishIdCounter s) (inputValue s)] /\
  wishIdCounter (handleSendWish s) = wishIdCounter s + 1 /\
  inputValue (handleSendWish s) = [] /\
  hasWished (handleSendWish s) = true.
Proof. intros H. unfold handleSendWish. rewrite H. now repeat split. Qed.

(** C10.  A submission whose text is empty or made of white space only is
    rejected whole: the handler returns the state it was given, so the
    wish list (hence the projectiles rendered from it), the [hasWished]
    flag, the id counter and the pending input are all unchanged. *)
Theorem blank_wish_rejected :
  forall s : State,
    Forall (fun c => isWhiteSpace c = true) (inputValue s) ->
    handleSendWish s = s /\
    step s SendWish = s /\
    uiStep s SendWish = s /\
    wishes (handleSendWish s) = wishes s /\
    hasWished (handleSendWish s) = hasWished s /\
    wishIdCounter (handleSendWish s) = wishIdCounter s /\
    inputValue (handleSendWish s) = inputValue s.
Proof.
  intros s H.
  assert (E : handleSendWish s = s).
  { unfold handleSendWish. now rewrite (trim_blank _ H). }
  split; [exact E|]. split; [exact E|]. split.
  - unfold uiStep. destruct (offered s SendWish); [exact E|reflexivity].
  - now rewrite E.
Qed.

Lemma blank_wish_rejected_witness :
  handleSendWish (handleInput [32; 9; 160] init) = handleInput [32; 9; 160] init.
Proof.
  apply (blank_wish_rejected (handleInput [32; 9; 160] init)).
  simpl. repeat constructor.
Defined.

End CandleClaims.

(** ** The gesture classifier *)

Section GestureClassifier.
Import Gesture.

#[local] Open Scope R_scope.

(** Sample values. *)
Example update_from_rest_open_palm : update 0 1 = 0.15.
Proof.
  unfold update, deadzone, smooth.
  destruct (Rlt_dec (Rabs (0 + (1 - 0) * 0.15)) 0.1) as [H|_]; [|lra].
  exfalso. split_abs; lra.
Qed.

Example factor_midway : factorOfRatio 1.75 = 0.
Proof.
  unfold factorOfRatio, closedRatio, openRatio.
  destruct (Rlt_dec 1.75 1.3); [lra|]. destruct (Rlt_dec 2.2 1.75); lra.
Qed.

Lemma orOne_spec (scaleRef : R) :
  (scaleRef = 0 -> orOne scaleRef = 1) /\
  (scaleRef <> 0 -> orOne scaleRef = scaleRef).
Proof.
  unfold orOne. destruct (Req_dec_T scaleRef 0); split; intros; congruence.
Qed.

Lemma factorOfRatio_closed (ratio : R) :
  ratio <= 1.3 -> factorOfRatio ratio = -1.
Proof.
  intros H. unfold factorOfRatio, closedRatio, openRatio.
  destruct (Rlt_dec ratio 1.3); [reflexivity|].
  destruct (Rlt_dec 2.2 ratio); [lra|].
  replace ratio with 1.3 by lra. lra.
Qed.

Lemma factorOfRatio_open (ratio : R) :
  2.2 <= ratio -> factorOfRatio ratio = 1.
Proof.
  intros H. unfold factorOfRatio, closedRatio, openRatio.
  destruct (Rlt_dec ratio 1.3); [lra|].
  destruct (Rlt_dec 2.2 ratio); [reflexivity|].
  replace ratio with 2.2 by lra. lra.
Qed.

Lemma factorOfRatio_between (ratio : R) :
  1.3 <= ratio <= 2.2 ->
  factorOfRatio ratio = ((ratio - 1.3) / (2.2 - 1.3)) * 2 - 1.
Proof.
  intros H. unfold factorOfRatio, closedRatio, openRatio.
  destruct (Rlt_dec ratio 1.3); [lra|].
  destruct (Rlt_dec 2.2 ratio); [lra|]. reflexivity.
Qed.

Lemma ratioOf_full_hand (landmarks : list Landmark) :
  length landmarks = 21%nat ->
  ratioOf landmarks
  = Some (meanTipDistance landmarks / orOne (scaleReference landmarks)).
Proof.
  intros Hlen.
  do 22 (destruct landmarks as [|? landmarks]; try discriminate Hlen).
  unfold ratioOf, scaleRefOf, avgTipDistOf, meanTipDistance, scaleReference,
    point; simpl.
  f_equal. f_equal. lra.
Qed.

(** C4.  The target factor of a landmark sample.  With no hand it is 0.
    With a hand (the detector's 21 points) it is the ratio of the mean
    wrist-to-fingertip distance to the wrist-to-knuckle distance (1 in
    place of a zero distance), sent to -1 up to 1.3, to +1 from 2.2 on,
    and in between through [((ratio - 1.3) / (2.2 - 1.3)) * 2 - 1], which
    is strictly increasing, takes -1 at 1.3 and +1 at 2.2, and covers
    the whole of [-1, 1]. *)
Theorem target_factor_of_sample :
  targetFactor [] = Some 0 /\
  (forall (landmarks : list Landmark) (others : list (list Landmark)),
     length landmarks = 21%nat ->
     let ratio := meanTipDistance landmarks / orOne (scaleReference landmarks) in
     orOne 0 = 1 /\
     (scaleReference landmarks <> 0 ->
      orOne (scaleReference landmarks) = scaleReference landmarks) /\
     targetFactor (landmarks :: others) = Some (factorOfRatio ratio) /\
     (ratio <= 1.3 -> targetFactor (landmarks :: others) = Some (-1)) /\
     (2.2 <= ratio -> targetFactor (landmarks :: others) = Some 1) /\
     (1.3 < ratio < 2.2 ->
      targetFactor (landmarks :: others)
      = Some (((ratio - 1.3) / (2.2 - 1.3)) * 2 - 1))) /\
  (forall r1 r2 : R,
     1.3 <= r1 -> r1 < r2 -> r2 <= 2.2 ->
     factorOfRatio r1 < factorOfRatio r2) /\
  (forall r : R, -1 <= factorOfRatio r <= 1) /\
  (forall y : R, -1 <= y <= 1 ->
     exists r : R, 1.3 <= r <= 2.2 /\ factorOfRatio r = y).
Proof.
  split; [reflexivity|]. split; [|split; [|split]].
  - intros landmarks others Hlen ratio.
    assert (E : targetFactor (landmarks :: others) = Some (factorOfRatio ratio)).
    { unfold targetFactor. now rewrite (ratioOf_full_hand _ Hlen). }
    split; [now apply orOne_spec|]. split; [now apply orOne_spec|].
    split; [exact E|]. rewrite E. split; [|split]; intros H; f_equal.
    + now apply factorOfRatio_closed.
    + now apply factorOfRatio_open.
    + apply factorOfRatio_between. lra.
  - intros r1 r2 H1 H12 H2.
    rewrite !factorOfRatio_between by lra. lra.
  - intros r. destruct (Rle_lt_dec r 1.3) as [H|H].
    + rewrite factorOfRatio_closed by exact H. lra.
    + destruct (Rle_lt_dec 2.2 r) as [H'|H'].
      * rewrite factorOfRatio_open by exact H'. lra.
      * rewrite factorOfRatio_between by lra. lra.
  - intros y Hy. exists (1.3 + (y + 1) * 0.45). split; [lra|].
    rewrite factorOfRatio_between by lra. lra.
Qed.

Lemma distFrom_self (p : Landmark) : distFrom p p = 0.
Proof.
  unfold distFrom.
  replace ((x p - x p) ^ 2 + (y p - y p) ^ 2 + (z p - z p) ^ 2) with 0 by lra.
  apply sqrt_0.
Qed.

Lemma target_factor_of_sample_witness :
  targetFactor [repeat (mkLandmark 0 0 0) 21] = Some (-1).
Proof.
  destruct target_factor_of_sample as (_ & H & _).
  destruct (H (repeat (mkLandmark 0 0 0) 21) [] eq_refl) as (_ & _ & _ & Hc & _).
  apply Hc. unfold meanTipDistance, scaleReference, point. cbn [nth repeat].
  rewrite distFrom_self.
  rewrite (proj1 (orOne_spec 0) eq_refl). lra.
Defined.

Lemma update_cases (current target : R) :
  (0.1 <= Rabs (smooth current target) /\
   update current target = smooth current target) \/
  (Rabs (smooth current target) < 0.1 /\ update current target = 0).
Proof.
  unfold update, deadzone.
  destruct (Rlt_dec (Rabs (smooth current target)) 0.1); [right|left];
    split; try reflexivity; lra.
Qed.

(** C8.  Whatever a call hands to [onGestureChange] is the deadzoned
    smoothed signal: its absolute value is never strictly between 0 and
    0.1, and it is exactly 0 whenever the smoothed signal was below 0.1
    in absolute value. *)
Theorem deadzone_snaps_to_zero :
  forall (ready : bool) (videoTime : R) (results : list (list Landmark))
         (st st' : State) (v : R),
    predictWebcam ready videoTime results st = (st', Emitted v) ->
    exists target : R,
      targetFactor results = Some target /\
      v = update (currentFactor st) target /\
      currentFactor st' = v /\
      ~ (0 < Rabs v < 0.1) /\
      (Rabs (smooth (currentFactor st) target) < 0.1 -> v = 0).
Proof.
  intros ready videoTime results st st' v H.
  unfold predictWebcam in H.
  destruct (negb ready); [discriminate H|].
  destruct (Req_dec_T videoTime (lastVideoTime st)); [discriminate H|].
  destruct (targetFactor results) as [target|]; [|discriminate H].
  injection H as <- <-. exists target.
  split; [reflexivity|]. split; [reflexivity|]. split; [reflexivity|].
  destruct (update_cases (currentFactor st) target) as [[Hs ->]|[Hs ->]].
  - split; lra.
  - split; [|reflexivity]. rewrite Rabs_R0. lra.
Qed.

Lemma distFrom_axis (a : R) :
  0 <= a -> distFrom (mkLandmark 0 0 0) (mkLandmark a 0 0) = a.
Proof.
  intros Ha. unfold distFrom; simpl.
  replace ((a - 0) * ((a - 0) * 1) + (0 - 0) * ((0 - 0) * 1)
           + (0 - 0) * ((0 - 0) * 1)) with (a * a) by ring.
  now apply sqrt_square.
Qed.

Lemma targetFactor_handWithTips (d : R) :
  0 <= d ->
  targetFactor [GestureRun.handWithTips d] = Some (factorOfRatio d).
Proof.
  intros Hd. unfold targetFactor.
  rewrite ratioOf_full_hand by reflexivity. simpl. do 2 f_equal.
  unfold meanTipDistance, scaleReference, point, GestureRun.handWithTips.
  cbn [nth].
  rewrite !(distFrom_axis d) by exact Hd.
  rewrite (distFrom_axis 1) by lra.
  destruct (orOne_spec 1) as [_ ->]; lra.
Qed.

(** From rest, a half-open hand: the target is 0.5, the smoothed signal
    0.075, and what is stored and handed on is 0. *)
Lemma predictWebcam_half_open :
  predictWebcam true 0 [GestureRun.halfOpenHand] init = (mkState 0 0, Emitted 0).
Proof.
  unfold predictWebcam, init. cbn [negb lastVideoTime currentFactor].
  destruct (Req_dec_T 0 (-1)) as [E|_]; [lra|].
  unfold GestureRun.halfOpenHand.
  rewrite targetFactor_handWithTips by lra.
  rewrite factorOfRatio_between by lra.
  destruct (update_cases 0 ((1.975 - 1.3) / (2.2 - 1.3) * 2 - 1))
    as [[Hs _]|[_ ->]]; [|reflexivity].
  exfalso. unfold smooth in Hs. split_abs; lra.
Qed.

(** From rest, a wide-open hand: the target is 1 and 0.15 is handed on. *)
Lemma predictWebcam_open :
  predictWebcam true 0 [GestureRun.openHand] init
  = (mkState 0 0.15, Emitted 0.15).
Proof.
  unfold predictWebcam, init. cbn [negb lastVideoTime currentFactor].
  destruct (Req_dec_T 0 (-1)) as [E|_]; [lra|].
  unfold GestureRun.openHand.
  rewrite targetFactor_handWithTips by lra.
  rewrite factorOfRatio_open by lra.
  now rewrite update_from_rest_open_palm.
Qed.

Lemma deadzone_snaps_to_zero_witness :
  targetFactor [GestureRun.halfOpenHand] = Some 0.5 /\
  smooth (currentFactor init) 0.5 = 0.075 /\
  exists target : R,
    targetFactor [GestureRun.halfOpenHand] = Some target /\
    0 = update (currentFactor init) target /\
    currentFactor (mkState 0 0) = 0 /\
    ~ (0 < Rabs 0 < 0.1) /\
    (Rabs (smooth (currentFactor init) target) < 0.1 -> 0 = 0).
Proof.
  split; [|split].
  - unfold GestureRun.halfOpenHand.
    rewrite targetFactor_handWithTips by lra.
    rewrite factorOfRatio_between by lra. f_equal. lra.
  - unfold smooth, init; simpl. lra.
  - exact (deadzone_snaps_to_zero true 0 [GestureRun.halfOpenHand] init
             (mkState 0 0) 0 predictWebcam_half_open).
Defined.

End GestureClassifier.

(** ** Smoothing under a held target *)

Section GestureSmoothing.
Import Gesture.

#[local] Open Scope R_scope.

Lemma hold_S (target : R) (n : nat) (signal : R) :
  hold target (S n) signal = update (hold target n signal) target.
Proof.
  revert signal. induction n as [|n IH]; intros signal; [reflexivity|].
  change (hold target (S (S n)) signal)
    with (hold target (S n) (update signal target)).
  now rewrite IH.
Qed.

(** Smoothing alone: the distance to the target shrinks by the factor
    0.85 and the signal stays on its side of the target. *)
Lemma smooth_contracts (signal target : R) :
  Rabs (smooth signal target - target) = 0.85 * Rabs (signal - target) /\
  (signal <= target -> smooth signal target <= target) /\
  (target <= signal -> target <= smooth signal target).
Proof. unfold smooth. split_abs; repeat split; intros; lra. Qed.

Lemma update_no_overshoot (signal target : R) :
  reachable target ->
  Rabs (update signal target - target) <= Rabs (signal - target) /\
  (signal <= target -> update signal target <= target) /\
  (target <= signal -> target <= update signal target).
Proof.
  intros Hr.
  destruct (update_cases signal target) as [[Hs ->]|[Hs ->]].
  - destruct (smooth_contracts signal target) as (-> & H1 & H2).
    repeat split; try assumption.
    pose proof (Rabs_pos (signal - target)). lra.
  - unfold smooth in Hs. destruct Hr as [->|Hr].
    + split_abs; repeat split; intros; lra.
    + split_abs; repeat split; intros; lra.
Qed.

Lemma update_twice_contracts (signal target : R) :
  reachable target ->
  Rabs (update (update signal target) target - target)
  <= 0.85 * Rabs (signal - target).
Proof.
  intros Hr.
  destruct (update_cases signal target) as [[Hs E]|[Hs E]].
  - destruct (update_no_overshoot (update signal target) target Hr) as [H _].
    rewrite E in H at 2.
    destruct (smooth_contracts signal target) as (Hc & _). lra.
  - destruct (update_no_overshoot signal target Hr) as [H _].
    rewrite E in *.
    destruct (update_cases 0 target) as [[Hs0 E0]|[Hs0 E0]]; rewrite E0.
    + destruct (smooth_contracts 0 target) as (-> & _). lra.
    + unfold smooth in Hs0. destruct Hr as [->|Hr].
      * split_abs; lra.
      * exfalso. split_abs; lra.
Qed.

Lemma hold_even_contracts (target : R) (n : nat) (signal : R) :
  reachable target ->
  Rabs (hold target (2 * n) signal - target)
  <= 0.85 ^ n * Rabs (signal - target).
Proof.
  intros Hr. revert signal.
  induction n as [|n IH]; intros signal.
  - simpl. lra.
  - replace (2 * S n)%nat with (S (S (2 * n))) by lia.
    change (hold target (S (S (2 * n))) signal)
      with (hold target (2 * n) (update (update signal target) target)).
    eapply Rle_trans; [apply IH|].
    pose proof (update_twice_contracts signal target Hr) as H.
    assert (Hp : 0 <= 0.85 ^ n) by (apply pow_le; lra).
    simpl pow. nra.
Qed.

Lemma hold_contracts (target : R) (n : nat) (signal : R) :
  reachable target ->
  Rabs (hold target n signal - target)
  <= 0.85 ^ (Nat.div2 n) * Rabs (signal - target).
Proof.
  intros Hr.
  destruct (Nat.Even_or_Odd n) as [[k ->]|[k ->]].
  - rewrite Nat.div2_double. now apply hold_even_contracts.
  - replace (2 * k + 1)%nat with (S (2 * k)) by lia.
    rewrite Nat.div2_succ_double.
    change (hold target (S (2 * k)) signal)
      with (hold target (2 * k) (update signal target)).
    eapply Rle_trans; [now apply hold_even_contracts|].
    destruct (update_no_overshoot signal target Hr) as [H _].
    assert (Hp : 0 <= 0.85 ^ k) by (apply pow_le; lra).
    nra.
Qed.

(** From 0, a target of absolute value below 2/3 moves the smoothed
    signal less than 0.1 away, and the deadzone puts it back at 0. *)
Lemma update_stuck_at_zero (target : R) :
  Rabs target < 2 / 3 -> update 0 target = 0.
Proof.
  intros H. destruct (update_cases 0 target) as [[Hs _]|[_ E]]; [|exact E].
  exfalso. unfold smooth in Hs. split_abs; lra.
Qed.

Lemma hold_stuck_at_zero (target : R) (n : nat) :
  Rabs target < 2 / 3 -> hold target n 0 = 0.
Proof.
  intros H. induction n as [|n IH]; [reflexivity|].
  simpl. now rewrite update_stuck_at_zero.
Qed.

(** Under the held target 0.5 a signal that starts at 0 never leaves 0,
    so it never comes within 0.25 of the target; and under the held
    target 0.09 the signal 0.1 is sent to 0, on the far side of the
    target and nine times farther from it. *)
Lemma held_target_missed_and_overshot :
  (-1 <= 0 <= 1 /\ -1 <= 0.5 <= 1 /\
   ~ exists n : nat, Rabs (hold 0.5 n 0 - 0.5) < 0.25) /\
  (-1 <= 0.1 <= 1 /\ -1 <= 0.09 <= 1 /\
   0.09 < 0.1 /\ update 0.1 0.09 < 0.09 /\
   Rabs (0.1 - 0.09) < Rabs (update 0.1 0.09 - 0.09)).
Proof.
  split.
  - split; [lra|]. split; [lra|]. intros [n Hn].
    rewrite hold_stuck_at_zero in Hn by (split_abs; lra).
    split_abs; lra.
  - assert (E : update 0.1 0.09 = 0).
    { destruct (update_cases 0.1 0.09) as [[Hs _]|[_ E]]; [|exact E].
      exfalso. unfold smooth in Hs. split_abs; lra. }
    rewrite E. repeat split; try lra. split_abs; lra.
Qed.

(** C7, as the code has it.  Under a held target that is 0 or of absolute
    value at least 2/3 (the saturated targets -1 and +1 among them), from
    every initial signal: the distance to the target never increases from
    one update to the next, the signal never passes to the other side of
    the target, and for every positive epsilon the signal is within
    epsilon of the target from some update on. *)
Theorem held_target_converges :
  forall target signal : R,
    target = 0 \/ 2 / 3 <= Rabs target ->
    (forall n : nat,
       Rabs (hold target (S n) signal - target)
       <= Rabs (hold target n signal - target)) /\
    (forall n : nat,
       (signal <= target -> hold target n signal <= target) /\
       (target <= signal -> target <= hold target n signal)) /\
    (forall eps : R, 0 < eps ->
       exists N : nat, forall n : nat, (N <= n)%nat ->
         Rabs (hold target n signal - target) < eps).
Proof.
  intros target signal Hr. fold (reachable target) in Hr.
  split; [|split].
  - intros n. rewrite hold_S. now apply update_no_overshoot.
  - induction n as [|n [IH1 IH2]]; [simpl; split; intros; lra|].
    rewrite hold_S.
    destruct (update_no_overshoot (hold target n signal) target Hr)
      as (_ & H1 & H2).
    split; intros H; [apply H1, IH1, H|apply H2, IH2, H].
  - intros eps Heps.
    set (D := Rabs (signal - target)).
    assert (HD : 0 <= D) by apply Rabs_pos.
    destruct (pow_lt_1_zero 0.85) with (y := eps / (D + 1)) as [N0 HN0].
    + split_abs; lra.
    + apply Rdiv_lt_0_compat; lra.
    + exists (2 * N0)%nat. intros n Hn.
      eapply Rle_lt_trans; [now apply hold_contracts|]. fold D.
      assert (Hq : (Nat.div2 n >= N0)%nat).
      { rewrite Nat.div2_div. apply Nat.div_le_lower_bound; lia. }
      specialize (HN0 _ Hq).
      assert (Hp : 0 <= 0.85 ^ Nat.div2 n) by (apply pow_le; lra).
      rewrite Rabs_pos_eq in HN0 by exact Hp.
      assert (Hlt : 0.85 ^ Nat.div2 n * (D + 1) < eps).
      { apply (Rmult_lt_compat_r (D + 1)) in HN0; [|lra].
        unfold Rdiv in HN0. rewrite Rmult_assoc, Rinv_l in HN0 by lra. lra. }
      nra.
Qed.

Lemma held_target_converges_witness :
  exists N : nat, forall n : nat, (N <= n)%nat ->
    Rabs (hold 1 n (-1) - 1) < 0.001.
Proof.
  assert (H1 : 1 = 0 \/ 2 / 3 <= Rabs 1).
  { right. rewrite Rabs_R1. lra. }
  destruct (held_target_converges 1 (-1) H1) as (_ & _ & H).
  apply H. lra.
Defined.

End GestureSmoothing.

(** ** The wish in flight *)

Section WishFlight.
Import Wish.

#[local] Open Scope R_scope.

Lemma cube_incr (a b : R) : 0 <= a -> a <= b -> a * a * a <= b * b * b.
Proof.
  intros Ha Hab.
  assert (H2 : a * a <= b * b) by nra.
  assert (Hb : 0 <= b) by lra.
  assert (0 <= a * a) by nra.
  nra.
Qed.

Lemma ease_low (t : R) : t < 0.5 -> ease t = 4 * t * t * t.
Proof. intros H. unfold ease. destruct (Rlt_dec t 0.5); [reflexivity|lra]. Qed.

Lemma ease_high (t : R) :
  0.5 <= t -> ease t = 1 - (-2 * t + 2) * (-2 * t + 2) * (-2 * t + 2) / 2.
Proof.
  intros H. unfold ease. destruct (Rlt_dec t 0.5); [lra|]. simpl. lra.
Qed.

Example ease_midpoint : ease 0.5 = 0.5.
Proof. rewrite ease_high by lra. lra. Qed.

Example ease_quarter : ease 0.25 = 0.0625.
Proof. rewrite ease_low by lra. lra. Qed.

(** C9.  The easing of the flight is 0 at 0, 1 at 1, and never decreases
    between the two. *)
Theorem ease_monotone :
  ease 0 = 0 /\
  ease 1 = 1 /\
  (forall t1 t2 : R, 0 <= t1 -> t1 <= t2 -> t2 <= 1 -> ease t1 <= ease t2).
Proof.
  split; [|split].
  - rewrite ease_low by lra. lra.
  - rewrite ease_high by lra. lra.
  - intros t1 t2 H0 H12 H1.
    destruct (Rlt_dec t1 0.5) as [L1|L1]; destruct (Rlt_dec t2 0.5) as [L2|L2].
    + rewrite !ease_low by assumption.
      pose proof (cube_incr t1 t2 H0 H12). lra.
    + rewrite ease_low by assumption. rewrite ease_high by lra.
      pose proof (cube_incr t1 0.5 H0 ltac:(lra)) as Ha.
      pose proof (cube_incr (-2 * t2 + 2) 1 ltac:(lra) ltac:(lra)) as Hb.
      lra.
    + lra.
    + rewrite !ease_high by lra.
      pose proof (cube_incr (-2 * t2 + 2) (-2 * t1 + 2) ltac:(lra) ltac:(lra)).
      lra.
Qed.

Lemma ease_monotone_witness : ease 0.25 <= ease 0.75.
Proof.
  destruct ease_monotone as (_ & _ & H). apply H; lra.
Defined.

(** The four branches of the frame callback. *)
Lemma useFrame_idle (c : Curve) (delta : R) (w : State) :
  finished w = true \/ groupRef w = false -> useFrame c delta w = (w, false).
Proof.
  intros [H|H]; unfold useFrame; rewrite H; [reflexivity|].
  now rewrite orb_true_r.
Qed.

Lemma useFrame_flight (c : Curve) (delta : R) (w : State) :
  finished w = false -> groupRef w = true -> progress w < 1 ->
  useFrame c delta w
  = (mkState (progress w + delta * 0.8) (exploded w) (finished w) (groupRef w)
             (getPoint c (ease (Rmin (progress w + delta * 0.8) 1)))
             (rotationZ w + delta * 5) (rotationY w + delta * 2) (scale w),
     false).
Proof.
  intros Hf Hg Hp. unfold useFrame. rewrite Hf, Hg. simpl.
  destruct (Rlt_dec (progress w) 1); [reflexivity|lra].
Qed.

Lemma useFrame_impact (c : Curve) (delta : R) (w : State) :
  finished w = false -> groupRef w = true -> 1 <= progress w ->
  exploded w = false ->
  useFrame c delta w
  = (mkState (progress w) true (finished w) (groupRef w) (position w)
             (rotationZ w) (rotationY w) (scale w),
     true).
Proof.
  intros Hf Hg Hp He. unfold useFrame. rewrite Hf, Hg, He. simpl.
  destruct (Rlt_dec (progress w) 1); [lra|reflexivity].
Qed.

Lemma useFrame_dissolve (c : Curve) (delta : R) (w : State) :
  finished w = false -> groupRef w = true -> 1 <= progress w ->
  exploded w = true ->
  snd (useFrame c delta w) = false /\
  exploded (fst (useFrame c delta w)) = true /\
  progress (fst (useFrame c delta w)) = progress w /\
  groupRef (fst (useFrame c delta w)) = true /\
  scale (fst (useFrame c delta w)) = multiplyScalar (scale w) 1.1.
Proof.
  intros Hf Hg Hp He. unfold useFrame. rewrite Hf, Hg, He. simpl.
  destruct (Rlt_dec (progress w) 1); [lra|]. now repeat split.
Qed.

Lemma sound_spawn (c : Curve) : sound (spawn c).
Proof. repeat split; simpl; discriminate. Qed.

(** One frame: an impact is signalled exactly when the frame starts with
    the flight complete and no explosion yet. *)
Lemma useFrame_sound (c : Curve) (delta : R) (w : State) :
  sound w ->
  sound (fst (useFrame c delta w)) /\
  (snd (useFrame c delta w) = true <->
   1 <= progress w /\ exploded w = false) /\
  (exploded (fst (useFrame c delta w))
   = exploded w || snd (useFrame c delta w)).
Proof.
  intros (Hg & He & Hf).
  destruct (finished w) eqn:Ef.
  - rewrite useFrame_idle by now left. simpl.
    split; [repeat split; try assumption; now rewrite Ef|].
    split; [|now rewrite orb_false_r].
    split; [discriminate|]. intros [_ H]. rewrite Hf in H by reflexivity.
    discriminate.
  - destruct (Rlt_dec (progress w) 1) as [Hp|Hp].
    + rewrite useFrame_flight by assumption. simpl.
      assert (Ex : exploded w = false).
      { destruct (exploded w); [|reflexivity].
        specialize (He eq_refl). lra. }
      split; [|split].
      * repeat split; simpl; try assumption; rewrite ?Ex, ?Ef; discriminate.
      * split; [discriminate|]. intros [H _]. lra.
      * now rewrite orb_false_r.
    + destruct (exploded w) eqn:Ex.
      * destruct (useFrame_dissolve c delta w Ef Hg ltac:(lra) Ex)
          as (-> & E1 & E2 & E3 & _).
        split; [|split].
        -- split; [exact E3|]. split; [rewrite E2; intros _; lra|].
           intros _. exact E1.
        -- split; [discriminate|]. intros [_ H]. discriminate.
        -- now rewrite E1.
      * rewrite useFrame_impact by (try assumption; lra). simpl.
        split; [|split].
        -- repeat split; simpl; try assumption. intros _. lra.
        -- split; [intros _; split; [lra|reflexivity]|reflexivity].
        -- reflexivity.
Qed.

Lemma frames_app (c : Curve) (l1 l2 : list R) (w : State) :
  frames c (l1 ++ l2) w
  = (fst (frames c l2 (fst (frames c l1 w))),
     snd (frames c l1 w) ++ snd (frames c l2 (fst (frames c l1 w)))).
Proof.
  revert w. induction l1 as [|d l1 IH]; intros w; simpl.
  - now destruct (frames c l2 w).
  - destruct (useFrame c d w) as [w' hit]. rewrite IH.
    destruct (frames c l1 w') as [w1 h1]. simpl. reflexivity.
Qed.

Lemma frames_length (c : Curve) (l : list R) (w : State) :
  length (snd (frames c l w)) = length l.
Proof.
  revert w. induction l as [|d l IH]; intros w; simpl; [reflexivity|].
  destruct (useFrame c d w) as [w' hit]. specialize (IH w').
  destruct (frames c l w'). simpl in *. now rewrite IH.
Qed.

Lemma frames_sound (c : Curve) (l : list R) (w : State) :
  sound w -> sound (fst (frames c l w)).
Proof.
  revert w. induction l as [|d l IH]; intros w Hw; simpl; [exact Hw|].
  destruct (useFrame_sound c d w Hw) as (Hs & _).
  destruct (useFrame c d w) as [w' hit]. specialize (IH w' Hs).
  now destruct (frames c l w').
Qed.

Lemma stateAfter_sound (c : Curve) (l : list R) : sound (stateAfter c l).
Proof. apply frames_sound, sound_spawn. Qed.

(** After the explosion no impact is signalled any more; before it, the
    number of impacts signalled is 1 if the wish has exploded by the end
    and 0 if not. *)
Lemma frames_count (c : Curve) (l : list R) (w : State) :
  sound w ->
  (exploded w = true ->
   hitCount (snd (frames c l w)) = 0%nat /\ exploded (fst (frames c l w)) = true) /\
  (exploded w = false ->
   hitCount (snd (frames c l w))
   = if exploded (fst (frames c l w)) then 1%nat else 0%nat).
Proof.
  revert w. induction l as [|d l IH]; intros w Hw.
  - simpl. split; [intros H; now split|intros ->; reflexivity].
  - simpl. destruct (useFrame_sound c d w Hw) as (Hs & Hhit & Hex).
    destruct (useFrame c d w) as [w' hit]. simpl in *.
    destruct (IH w' Hs) as [IHt IHf].
    destruct (frames c l w') as [w'' hits]. simpl in *.
    split; intros Ew; rewrite Ew in *; simpl in *.
    + destruct hit.
      * destruct (proj1 Hhit eq_refl) as [_ H]. discriminate H.
      * unfold hitCount in *. simpl. now apply IHt.
    + destruct hit.
      * destruct (IHt Hex) as [Hc He]. rewrite He.
        unfold hitCount in *. simpl. now rewrite Hc.
      * unfold hitCount in *. simpl. now apply IHf.
Qed.

Lemma impactAt_frame (c : Curve) (pre : list R) (d : R) (rest : list R) :
  impactAt c (pre ++ d :: rest) (length pre)
  = snd (useFrame c d (stateAfter c pre)).
Proof.
  unfold impactAt, stateAfter. rewrite frames_app. simpl.
  rewrite app_nth2; rewrite frames_length; [|lia].
  rewrite Nat.sub_diag. simpl.
  destruct (useFrame c d (fst (frames c pre (spawn c)))) as [w' hit].
  now destruct (frames c rest w').
Qed.

Lemma stateAfter_snoc (c : Curve) (pre : list R) (d : R) :
  stateAfter c (pre ++ [d]) = fst (useFrame c d (stateAfter c pre)).
Proof.
  unfold stateAfter. rewrite frames_app. simpl.
  now destruct (useFrame c d (fst (frames c pre (spawn c)))).
Qed.

Lemma impacts_count (c : Curve) (deltas : list R) :
  impacts c deltas = if exploded (stateAfter c deltas) then 1%nat else 0%nat.
Proof.
  destruct (frames_count c deltas (spawn c) (sound_spawn c)) as [_ H].
  exact (H eq_refl).
Qed.

Lemma stateAfter_one (c : Curve) (d : R) :
  stateAfter c [d] = fst (useFrame c d (spawn c)).
Proof. exact (stateAfter_snoc c [] d). Qed.

Lemma sample_first_frame :
  progress (stateAfter sampleCurve [2]) = 0 + 2 * 0.8 /\
  snd (useFrame sampleCurve 2 (stateAfter sampleCurve [])) = false.
Proof.
  rewrite stateAfter_one. change (stateAfter sampleCurve []) with (spawn sampleCurve).
  rewrite useFrame_flight; simpl; [split; reflexivity|reflexivity|reflexivity|lra].
Qed.

(** A frame of 2 s takes the progress from 0 to 1.6, so the parameter
    [t = min(progress, 1)] reaches 1 in that frame; no impact is
    signalled in it.  The impact comes with the next frame. *)
Lemma impact_not_in_arrival_frame :
  progress (stateAfter sampleCurve []) < 1 /\
  1 <= Rmin (progress (stateAfter sampleCurve [2])) 1 /\
  impacts sampleCurve [2] = 0%nat /\
  impactAt sampleCurve [2; 1] 0 = false /\
  impactAt sampleCurve [2; 1] 1 = true.
Proof.
  destruct sample_first_frame as [Hp Hhit].
  assert (Hs := stateAfter_sound sampleCurve [2]).
  destruct Hs as (Hg & He & Hf).
  assert (Ex : exploded (stateAfter sampleCurve [2]) = false).
  { rewrite stateAfter_one.
    rewrite useFrame_flight; simpl; try reflexivity; lra. }
  assert (Ef : finished (stateAfter sampleCurve [2]) = false).
  { destruct (finished (stateAfter sampleCurve [2])); [|reflexivity].
    rewrite Hf in Ex by reflexivity. discriminate. }
  split; [simpl; lra|]. split; [|split; [|split]].
  - rewrite Hp. unfold Rmin. destruct (Rle_dec (0 + 2 * 0.8) 1); lra.
  - rewrite impacts_count. now rewrite Ex.
  - pose proof (impactAt_frame sampleCurve [] 2 [1]) as H.
    cbn [app length] in H. rewrite H. exact Hhit.
  - pose proof (impactAt_frame sampleCurve [2] 1 []) as H.
    cbn [app length] in H. rewrite H.
    rewrite useFrame_impact; try assumption; [reflexivity|lra].
Qed.

(** C5, as the code has it.  For every wish and every sequence of frames:
    at most one impact is signalled; the count is 1 exactly when the wish
    has exploded; it is 1 when the wish is finished, and 1 as soon as some
    frame has started with the progress at 1 or more.  A frame signals
    the impact exactly when it starts with the progress at 1 or more and
    no explosion yet, so never while the progress is below 1 and never a
    second time: the frame in which the progress reaches 1 signals
    nothing, the frame after it signals the impact. *)
Theorem impact_fires_once_after_arrival :
  forall (c : Curve) (deltas : list R),
    (impacts c deltas <= 1)%nat /\
    (impacts c deltas = if exploded (stateAfter c deltas) then 1 else 0)%nat /\
    (finished (stateAfter c deltas) = true -> impacts c deltas = 1%nat) /\
    (forall pre d rest, deltas = pre ++ d :: rest ->
       1 <= progress (stateAfter c pre) -> impacts c deltas = 1%nat) /\
    (forall pre d rest, deltas = pre ++ d :: rest ->
       (impactAt c deltas (length pre) = true <->
        1 <= progress (stateAfter c pre) /\
        exploded (stateAfter c pre) = false)) /\
    (forall pre d d' rest, deltas = pre ++ d :: d' :: rest ->
       progress (stateAfter c pre) < 1 ->
       1 <= progress (stateAfter c (pre ++ [d])) ->
       impactAt c deltas (length pre) = false /\
       impactAt c deltas (S (length pre)) = true).
Proof.
  intros c deltas.
  assert (Hat : forall pre d rest, deltas = pre ++ d :: rest ->
            (impactAt c deltas (length pre) = true <->
             1 <= progress (stateAfter c pre) /\
             exploded (stateAfter c pre) = false)).
  { intros pre d rest ->. rewrite impactAt_frame.
    apply (useFrame_sound c d _ (stateAfter_sound c pre)). }
  split; [|split; [|split; [|split; [|split]]]].
  - rewrite impacts_count. destruct (exploded _); lia.
  - apply impacts_count.
  - intros Hf. rewrite impacts_count.
    destruct (stateAfter_sound c deltas) as (_ & _ & H). now rewrite H.
  - intros pre d rest -> Hp. rewrite impacts_count.
    destruct (useFrame_sound c d _ (stateAfter_sound c pre))
      as (Hs & Hhit & Hex).
    assert (E1 : exploded (fst (useFrame c d (stateAfter c pre))) = true).
    { rewrite Hex. destruct (exploded (stateAfter c pre)) eqn:E;
        [reflexivity|]. simpl. apply Hhit. now split. }
    replace (pre ++ d :: rest) with ((pre ++ [d]) ++ rest)
      by now rewrite <- app_assoc.
    unfold stateAfter at 1. rewrite frames_app. simpl fst.
    fold (stateAfter c (pre ++ [d])). rewrite stateAfter_snoc.
    destruct (frames_count c rest _ Hs) as [H _].
    destruct (H E1) as [_ ->]. reflexivity.
  - exact Hat.
  - intros pre d d' rest Heq Hlt Hge.
    assert (Ex : exploded (stateAfter c pre) = false).
    { destruct (exploded (stateAfter c pre)) eqn:E; [|reflexivity].
      destruct (stateAfter_sound c pre) as (_ & H & _).
      specialize (H E). lra. }
    split.
    + destruct (impactAt c deltas (length pre)) eqn:E; [|reflexivity].
      apply (Hat pre d (d' :: rest) Heq) in E. lra.
    + replace (S (length pre)) with (length (pre ++ [d]))
        by (rewrite length_app; simpl; lia).
      apply (Hat (pre ++ [d]) d' rest).
      * now rewrite <- app_assoc.
      * split; [exact Hge|].
        rewrite stateAfter_snoc.
        destruct (useFrame_sound c d _ (stateAfter_sound c pre))
          as (_ & Hhit & ->).
        rewrite Ex. simpl.
        destruct (snd (useFrame c d (stateAfter c pre)));
          [|reflexivity].
        destruct (proj1 Hhit eq_refl) as [H _]. lra.
Qed.

Lemma impact_fires_once_after_arrival_witness :
  impactAt sampleCurve [2; 1] 0 = false /\ impactAt sampleCurve [2; 1] 1 = true.
Proof.
  destruct (impact_fires_once_after_arrival sampleCurve [2; 1])
    as (_ & _ & _ & _ & _ & H).
  apply (H [] 2 1 [] eq_refl).
  - simpl. lra.
  - destruct sample_first_frame as [E _].
    change (1 <= progress (stateAfter sampleCurve [2])). rewrite E. lra.
Defined.

End WishFlight.

(** ** The confetti step *)

Section ConfettiStep.
Import Confetti.

#[local] Open Scope R_scope.

Lemma body_wellFormed (n : nat) (dt : R) (p : Pool) (k : nat) :
  wellFormed n p -> wellFormed n (body dt p k).
Proof.
  intros (H1 & H2 & H3 & H4 & H5).
  unfold wellFormed, body; simpl. now rewrite !length_insert.
Qed.

Lemma body_integrated (n : nat) (dt : R) (p : Pool) (k : nat) :
  wellFormed n p -> (k < n)%nat -> integrated dt p (body dt p k) k.
Proof.
  intros (H1 & H2 & H3 & H4 & H5) Hk.
  unfold integrated, body; simpl.
  repeat split; slots.
  destruct (Rlt_dec _ _); lra.
Qed.

Lemma body_untouched (dt : R) (p : Pool) (k j : nat) :
  j <> k -> untouched p (body dt p k) j.
Proof.
  intros Hj. unfold untouched, body; simpl. split.
  - intros c Hc. repeat split; slots.
  - slots.
Qed.

(** The loop, after its first [k] rounds. *)
Lemma loop_spec (n : nat) (dt : R) (p : Pool) (k : nat) :
  wellFormed n p -> (k <= n)%nat ->
  let q := fold_left (body dt) (seq 0 k) p in
  wellFormed n q /\
  rotationSpeeds q = rotationSpeeds p /\
  (forall j, (j < k)%nat -> integrated dt p q j) /\
  (forall j, (k <= j)%nat -> untouched p q j).
Proof.
  intros Hp. induction k as [|k IH]; intros Hk q.
  - subst q; simpl. split; [exact Hp|]. split; [reflexivity|].
    split; [intros; lia|]. intros j _. split; [|reflexivity].
    intros c _. now repeat split.
  - destruct (IH ltac:(lia)) as (Hw & Hs & Hdone & Hrest). clear IH.
    subst q. rewrite seq_S, fold_left_app. simpl.
    set (q := fold_left (body dt) (seq 0 k) p) in *.
    split; [now apply body_wellFormed|].
    split; [exact Hs|]. split.
    + intros j Hj. destruct (Nat.eq_dec j k) as [->|Hne].
      * pose proof (body_integrated n dt q k Hw ltac:(lia)) as Hb.
        destruct (Hrest k (Nat.le_refl k)) as [Hu Hsc].
        destruct (Hu 0%nat ltac:(lia)) as (U0 & P0 & R0).
        destruct (Hu 1%nat ltac:(lia)) as (U1 & P1 & R1).
        destruct (Hu 2%nat ltac:(lia)) as (U2 & P2 & R2).
        rewrite Nat.add_0_r in U0, P0, R0.
        unfold integrated in *. rewrite Hs in Hb.
        rewrite <- U0, <- U1, <- U2, <- P0, <- P1, <- P2, <- R0, <- R1, <- R2.
        exact Hb.
      * pose proof (body_untouched dt q k j Hne) as [Hu Hsc].
        destruct (Hu 0%nat ltac:(lia)) as (U0 & P0 & R0).
        destruct (Hu 1%nat ltac:(lia)) as (U1 & P1 & R1).
        destruct (Hu 2%nat ltac:(lia)) as (U2 & P2 & R2).
        rewrite Nat.add_0_r in U0, P0, R0.
        unfold integrated in *.
        rewrite U0, U1, U2, P0, P1, P2, R0, R1, R2, Hsc.
        apply Hdone. lia.
    + intros j Hj.
      pose proof (body_untouched dt q k j ltac:(lia)) as [Hu Hsc].
      destruct (Hrest j ltac:(lia)) as [Hu' Hsc'].
      split; [|now rewrite Hsc].
      intros c Hc. destruct (Hu c Hc) as (U & P & R0).
      destruct (Hu' c Hc) as (U' & P' & R').
      rewrite U, P, R0. now repeat split.
Qed.

(** C6.  One confetti step.  The frame delta is first clamped to
    [dt = min(delta, 0.1)]; then, for every particle of the pool, the
    vertical velocity loses [15 * dt] and all three velocity components
    are multiplied by 0.96 (once per step, whatever [dt]); the position
    advances by the velocity so updated times [dt]; the rotation advances
    by the angular velocity times [dt].  The angular velocities and the
    size of the pool do not change. *)
Theorem confetti_step :
  forall (delta : R) (p : Pool),
    wellFormed count p ->
    let dt := Rmin delta 0.1 in
    let q := ConfettiExplosion true delta p in
    dt <= 0.1 /\ dt <= delta /\ (dt = delta \/ dt = 0.1) /\
    wellFormed count q /\
    rotationSpeeds q = rotationSpeeds p /\
    forall i : nat, (i < count)%nat ->
      let vx' := velocities p !!! (i * 3)%nat * 0.96 in
      let vy' := (velocities p !!! (i * 3 + 1)%nat - 15 * dt) * 0.96 in
      let vz' := velocities p !!! (i * 3 + 2)%nat * 0.96 in
      velocities q !!! (i * 3)%nat = vx' /\
      velocities q !!! (i * 3 + 1)%nat = vy' /\
      velocities q !!! (i * 3 + 2)%nat = vz' /\
      positions q !!! (i * 3)%nat = positions p !!! (i * 3)%nat + vx' * dt /\
      positions q !!! (i * 3 + 1)%nat
      = positions p !!! (i * 3 + 1)%nat + vy' * dt /\
      positions q !!! (i * 3 + 2)%nat
      = positions p !!! (i * 3 + 2)%nat + vz' * dt /\
      rotations q !!! (i * 3)%nat
      = rotations p !!! (i * 3)%nat + rotationSpeeds p !!! (i * 3)%nat * dt /\
      rotations q !!! (i * 3 + 1)%nat
      = rotations p !!! (i * 3 + 1)%nat
        + rotationSpeeds p !!! (i * 3 + 1)%nat * dt /\
      rotations q !!! (i * 3 + 2)%nat
      = rotations p !!! (i * 3 + 2)%nat
        + rotationSpeeds p !!! (i * 3 + 2)%nat * dt.
Proof.
  intros delta p Hp dt q.
  destruct (loop_spec count dt p count Hp (Nat.le_refl _))
    as (Hw & Hs & Hdone & _).
  split; [apply Rmin_r|]. split; [apply Rmin_l|].
  split; [unfold dt, Rmin; destruct (Rle_dec delta 0.1); auto|].
  split; [exact Hw|]. split; [exact Hs|].
  intros i Hi vx' vy' vz'.
  destruct (Hdone i Hi) as (V0 & V1 & V2 & P0 & P1 & P2 & R0 & R1 & R2 & _).
  unfold q, ConfettiExplosion, useFrame; simpl negb; cbv iota.
  fold dt. rewrite P0, P1, P2, V0, V1, V2.
  now repeat split.
Qed.

Lemma samplePool_wellFormed : wellFormed count samplePool.
Proof.
  unfold wellFormed, samplePool.
  cbn [positions velocities rotations rotationSpeeds instanceScale].
  now rewrite !length_replicate.
Qed.

Lemma confetti_step_witness :
  velocities (ConfettiExplosion true 1 samplePool) !!! (0 * 3 + 1)%nat
  = (velocities samplePool !!! (0 * 3 + 1)%nat - 15 * Rmin 1 0.1) * 0.96.
Proof.
  destruct (confetti_step 1 samplePool samplePool_wellFormed)
    as (_ & _ & _ & _ & _ & H).
  assert (H0 : (0 < count)%nat) by (unfold count; lia).
  destruct (H 0%nat H0) as (_ & Hvy & _). exact Hvy.
Defined.

(** A frame that comes without the mesh leaves the pool alone. *)
Lemma confetti_unmounted (delta : R) (p : Pool) :
  ConfettiExplosion false delta p = p.
Proof. reflexivity. Qed.

End ConfettiStep.

(** ** What the traces of the root component keep *)

Section LifecycleFacts.
Import App Lifecycle.

#[local] Open Scope N_scope.

Lemma trimStart_nil (v : jsString) :
  trimStart v = [] -> Forall (fun c => isWhiteSpace c = true) v.
Proof.
  induction v as [|c v IH]; simpl; [constructor|].
  destruct (isWhiteSpace c) eqn:Hc; [|discriminate].
  intros H. constructor; [exact Hc|now apply IH].
Qed.

Lemma trimStart_head (v : jsString) (c : N) (r : jsString) :
  trimStart v = c :: r -> isWhiteSpace c = false.
Proof.
  induction v as [|a v IH]; simpl; [discriminate|].
  destruct (isWhiteSpace a) eqn:Ha; [exact IH|].
  intros H. injection H as <- _. exact Ha.
Qed.

Lemma trim_nil (v : jsString) :
  trim v = [] -> Forall (fun c => isWhiteSpace c = true) v.
Proof.
  unfold trim, trimEnd. intros H.
  destruct (trimStart v) as [|c r] eqn:E; [now apply trimStart_nil|].
  exfalso. pose proof (trimStart_head _ _ _ E) as Hc.
  apply (f_equal (@rev N)) in H. rewrite rev_involutive in H. simpl in H.
  apply trimStart_nil in H.
  apply Forall_app in H as [_ H]. inversion H as [|? ? Hw _]; subst.
  congruence.
Qed.

(** The wish form takes exactly the texts with a visible character: the
    handler hands back the state it was given if and only if the input is
    empty or white space only. *)
Theorem wish_rejected_iff_blank :
  forall s : State,
    handleSendWish s = s <->
    Forall (fun c => isWhiteSpace c = true) (inputValue s).
Proof.
  intros s. split.
  - intros H. apply trim_nil.
    destruct (trim (inputValue s)) as [|c r] eqn:E; [reflexivity|].
    exfalso. unfold handleSendWish in H. rewrite E in H. simpl in H.
    apply (f_equal (fun t => length (wishes t))) in H. simpl in H.
    rewrite length_app in H. simpl in H. lia.
  - intros H. unfold handleSendWish. now rewrite (trim_blank _ H).
Qed.

Lemma wishesSound_init : wishesSound init.
Proof.
  split; [constructor|]. split; [constructor|].
  split; [discriminate|]. intros H. now elim H.
Qed.

Lemma wishesSound_step (s : State) (e : Event) :
  wishesSound s -> wishesSound (step s e).
Proof.
  intros (Hnd & Hall & Hflag).
  destruct e as [| | |v|d]; simpl.
  - exact (conj Hnd (conj Hall Hflag)).
  - split; [constructor|]. split; [constructor|].
    split; [discriminate|]. intros H. now elim H.
  - unfold handleSendWish.
    destruct (truthy (trim (inputValue s))) eqn:Et; simpl;
      [|exact (conj Hnd (conj Hall Hflag))].
    unfold wishesSound; simpl. split; [|split].
    + rewrite map_app. simpl. apply NoDup_app. split; [exact Hnd|].
      split; [|apply NoDup_singleton].
      intros i Hi Hin. apply list_elem_of_In in Hi, Hin.
      simpl in Hin. destruct Hin as [<-|[]].
      apply in_map_iff in Hi as (w & Hw & Hin).
      rewrite Forall_forall in Hall.
      apply list_elem_of_In in Hin. destruct (Hall w Hin) as [Hlt _]. lia.
    + apply Forall_app. split.
      * eapply Forall_impl; [exact Hall|]. simpl. intros w [Hlt Hw].
        split; [lia|exact Hw].
      * constructor; [|constructor]. simpl. split; [lia|exact Et].
    + split; [|reflexivity]. intros _ H.
      apply (f_equal (@length Wish)) in H. rewrite length_app in H.
      simpl in H. lia.
  - exact (conj Hnd (conj Hall Hflag)).
  - exact (conj Hnd (conj Hall Hflag)).
Qed.

Lemma counter_step (s : State) (e : Event) :
  wishIdCounter s <= wishIdCounter (step s e).
Proof.
  destruct e as [| | |v|d]; simpl; try lia.
  unfold handleSendWish.
  destruct (negb (truthy (trim (inputValue s)))); simpl; lia.
Qed.

Lemma counter_run (more : list Event) (s : State) :
  wishIdCounter s <= wishIdCounter (run s more).
Proof.
  revert s. induction more as [|e more IH]; intros s; simpl; [lia|].
  etransitivity; [apply counter_step|apply IH].
Qed.

Lemma wishesSound_run (l : list Event) : wishesSound (run init l).
Proof.
  generalize init wishesSound_init. induction l as [|e l IH]; intros s Hs.
  - exact Hs.
  - simpl. apply IH. now apply wishesSound_step.
Qed.

(** Whatever is called, in whatever order: the ids in the wish list are
    pairwise distinct and below the counter, the counter never goes back,
    every wish in the list has a visible character, and [hasWished] is
    set exactly when the list is not empty.  No id is handed out twice:
    a wish accepted at any later moment gets an id larger than that of
    every wish that has been in the list before, also when a reset has
    cleared the list in between. *)
Theorem wish_list_sound :
  forall (l : list Event),
    NoDup (map id (wishes (run init l))) /\
    Forall (fun w => id w < wishIdCounter (run init l) /\
                     truthy (trim (text w)) = true)
           (wishes (run init l)) /\
    (hasWished (run init l) = true <-> wishes (run init l) <> []) /\
    (forall more : list Event,
       wishIdCounter (run init l) <= wishIdCounter (run init (l ++ more))) /\
    (forall (more : list Event) (w : Wish),
       In w (wishes (run init l)) ->
       truthy (trim (inputValue (run init (l ++ more)))) = true ->
       exists w' : Wish,
         wishes (step (run init (l ++ more)) SendWish)
         = wishes (run init (l ++ more)) ++ [w'] /\
         id w < id w').
Proof.
  intros l.
  destruct (wishesSound_run l) as (H1 & H2 & H3).
  split; [exact H1|]. split; [exact H2|]. split; [exact H3|]. split.
  - intros more. rewrite run_app. apply counter_run.
  - intros more w Hin Ht.
    exists (mkWish (wishIdCounter (run init (l ++ more)))
                   (inputValue (run init (l ++ more)))).
    split.
    + simpl. unfold handleSendWish. now rewrite Ht.
    + simpl. rewrite Forall_forall in H2.
      apply list_elem_of_In in Hin. destruct (H2 w Hin) as [Hlt _].
      pose proof (counter_run more (run init l)) as Hc.
      rewrite run_app. lia.
Qed.

Lemma wish_list_sound_witness :
  exists w' : Wish,
    wishes (step (run init ([Input [104]; SendWish] ++ [Reset; Input [33]]))
                 SendWish)
    = wishes (run init ([Input [104]; SendWish] ++ [Reset; Input [33]])) ++ [w']
    /\ id (mkWish 0 [104]) < id w'.
Proof.
  destruct (wish_list_sound [Input [104]; SendWish]) as (_ & _ & _ & _ & H).
  apply (H [Reset; Input [33]] (mkWish 0 [104])).
  - left. reflexivity.
  - reflexivity.
Defined.

Lemma wishedFirst_uiStep (s : State) (e : Event) :
  wishedFirst s -> wishedFirst (uiStep s e).
Proof.
  intros (Hb & Hlen & Hflag). unfold uiStep.
  destruct (offered s e) eqn:Hoff; [|exact (conj Hb (conj Hlen Hflag))].
  destruct e as [| | |v|d]; simpl in *.
  - unfold blowOffered in Hoff.
    apply andb_true_iff in Hoff as [Hoff _].
    apply andb_true_iff in Hoff as [Hw _].
    unfold wishedFirst; simpl.
    split; [intros _; exact Hw|]. split; [exact Hlen|exact Hflag].
  - unfold wishedFirst; simpl.
    split; [discriminate|]. split; [lia|].
    split; [discriminate|]. intros H. now elim H.
  - unfold formOffered in Hoff. apply negb_true_iff in Hoff.
    assert (Hnil : wishes s = []).
    { destruct (wishes s) as [|w ws] eqn:E; [reflexivity|].
      assert (hasWished s = true) by (apply Hflag; discriminate).
      congruence. }
    unfold handleSendWish.
    destruct (negb (truthy (trim (inputValue s))));
      [exact (conj Hb (conj Hlen Hflag))|].
    unfold wishedFirst; simpl.
    rewrite Hnil. simpl. split; [reflexivity|]. split; [lia|].
    split; [discriminate|reflexivity].
  - exact (conj Hb (conj Hlen Hflag)).
  - exact (conj Hb (conj Hlen Hflag)).
Qed.

Lemma wishedFirst_uiRun (l : list Event) : wishedFirst (uiRun init l).
Proof.
  assert (H0 : wishedFirst init).
  { split; [discriminate|]. split; [simpl; lia|].
    split; [discriminate|]. intros H. now elim H. }
  generalize init H0. induction l as [|e l IH]; intros s Hs; simpl.
  - exact Hs.
  - apply IH. now apply wishedFirst_uiStep.
Qed.

(** Through the page the candle is never shaking or out without a wish:
    whenever the state is Blowing or Blown the wish list holds a wish; and
    it never holds more than one, the form being gone after the first. *)
Theorem page_blows_only_after_wish :
  forall (l : list Event),
    (length (wishes (uiRun init l)) <= 1)%nat /\
    (candle (uiRun init l) = Blowing \/ candle (uiRun init l) = Blown ->
     length (wishes (uiRun init l)) = 1%nat /\
     hasWished (uiRun init l) = true).
Proof.
  intros l.
  destruct (wishedFirst_uiRun l) as (Hb & Hlen & Hflag).
  destruct (tidy_uiRun l init tidy_init) as [Hbb _].
  split; [exact Hlen|]. intros Hc.
  assert (Hbl : isBlowing (uiRun init l) = true).
  { unfold candle in Hc. destruct (isBlown (uiRun init l));
      [now apply Hbb|].
    destruct (isBlowing (uiRun init l)); [reflexivity|].
    destruct (hasWished (uiRun init l)); destruct Hc; discriminate. }
  specialize (Hb Hbl). split; [|exact Hb].
  apply Hflag in Hb. destruct (wishes (uiRun init l)) as [|w [|w' ws]];
    simpl in *; [now elim Hb|reflexivity|lia].
Qed.

Lemma page_blows_only_after_wish_witness :
  length (wishes (uiRun init [Input [104]; SendWish; Blow])) = 1%nat /\
  hasWished (uiRun init [Input [104]; SendWish; Blow]) = true.
Proof.
  apply (page_blows_only_after_wish [Input [104]; SendWish; Blow]).
  left. reflexivity.
Defined.

(** Through the page the lifecycle has these moves only: Idle to Wishing,
    Wishing to Blowing, Blowing to Blown, Blown to Idle, or no move. *)
Theorem page_lifecycle_edges :
  forall (l : list Event) (e : Event),
    edge (candle (uiRun init l)) (candle (uiStep (uiRun init l) e)) = true.
Proof.
  intros l e.
  destruct (tidy_uiRun l init tidy_init) as [Hbb Ht].
  generalize dependent (uiRun init l). intros s Hbb Ht.
  unfold uiStep. destruct (offered s e) eqn:Hoff;
    [|now destruct (candle s)].
  destruct e as [| | |v|d]; simpl in *.
  - unfold blowOffered in Hoff.
    apply andb_true_iff in Hoff as [Hoff Hbl].
    apply andb_true_iff in Hoff as [Hw Hbn].
    apply negb_true_iff in Hbl, Hbn.
    unfold candle; simpl. now rewrite Hbn, Hbl, Hw.
  - unfold resetOffered in Hoff. unfold candle; simpl. now rewrite Hoff.
  - unfold formOffered in Hoff. apply negb_true_iff in Hoff.
    unfold handleSendWish.
    destruct (negb (truthy (trim (inputValue s))));
      unfold candle; simpl; rewrite ?Hoff;
      destruct (isBlown s), (isBlowing s); reflexivity.
  - unfold candle; simpl.
    destruct (isBlown s), (isBlowing s), (hasWished s); reflexivity.
  - unfold candle; simpl.
    destruct Ht as [Ht|(_ & Hbl & Hbn)].
    + rewrite Ht. simpl. rewrite orb_false_r.
      destruct (isBlown s), (isBlowing s), (hasWished s); reflexivity.
    + rewrite Hbl, Hbn. simpl.
      now destruct (existsb _ _).
Qed.

(** The handlers themselves allow more: called directly, a blow takes
    Idle to Blowing and a reset takes Blowing to Idle. *)
Example handlers_allow_more :
  edge (candle init) (candle (step init Blow)) = false /\
  edge (candle (step init Blow)) (candle (step (step init Blow) Reset)) = false.
Proof. split; reflexivity. Qed.

End LifecycleFacts.

(** ** Runs of the gesture classifier *)

Section GestureFacts.
Import Gesture GestureRun.

#[local] Open Scope R_scope.

Lemma factorOfRatio_bounds (ratio : R) : -1 <= factorOfRatio ratio <= 1.
Proof.
  destruct (Rle_lt_dec ratio 1.3) as [H|H].
  - rewrite factorOfRatio_closed by exact H. lra.
  - destruct (Rle_lt_dec 2.2 ratio) as [H'|H'].
    + rewrite factorOfRatio_open by exact H'. lra.
    + rewrite factorOfRatio_between by lra. lra.
Qed.

(** A more open hand never lowers the target: the target factor is
    non-decreasing in the ratio over all ratios. *)
Theorem factorOfRatio_monotone :
  forall r1 r2 : R, r1 <= r2 -> factorOfRatio r1 <= factorOfRatio r2.
Proof.
  intros r1 r2 H.
  destruct (Rle_lt_dec r1 1.3) as [H1|H1].
  - rewrite (factorOfRatio_closed r1) by exact H1.
    apply factorOfRatio_bounds.
  - destruct (Rle_lt_dec 2.2 r2) as [H2|H2].
    + rewrite (factorOfRatio_open r2) by exact H2.
      apply factorOfRatio_bounds.
    + rewrite !factorOfRatio_between by lra. lra.
Qed.

Lemma factorOfRatio_monotone_witness : factorOfRatio 1 <= factorOfRatio 2.
Proof. apply factorOfRatio_monotone. lra. Defined.

Lemma targetFactor_bounds (results : list (list Landmark)) (target : R) :
  targetFactor results = Some target -> -1 <= target <= 1.
Proof.
  unfold targetFactor. destruct results as [|landmarks others].
  - intros H. injection H as <-. lra.
  - destruct (ratioOf landmarks) as [ratio|]; simpl; [|discriminate].
    intros H. injection H as <-. apply factorOfRatio_bounds.
Qed.

Lemma update_bounds (current target : R) :
  -1 <= current <= 1 -> -1 <= target <= 1 ->
  -1 <= update current target <= 1.
Proof.
  intros Hc Ht.
  destruct (update_cases current target) as [[_ ->]|[_ ->]].
  - unfold smooth. lra.
  - lra.
Qed.

Lemma call_bounds (f : Frame) (st : State) :
  -1 <= currentFactor st <= 1 ->
  -1 <= currentFactor (fst (call f st)) <= 1 /\
  (forall v, snd (call f st) = Emitted v ->
     -1 <= v <= 1 /\ (v = 0 \/ 0.1 <= Rabs v)).
Proof.
  intros Hst. unfold call, predictWebcam.
  destruct (negb (ready f)); [split; [exact Hst|discriminate]|].
  destruct (Req_dec_T (videoTime f) (lastVideoTime st));
    [split; [exact Hst|discriminate]|].
  destruct (targetFactor (results f)) as [target|] eqn:Et;
    [|split; [exact Hst|discriminate]].
  pose proof (update_bounds _ _ Hst (targetFactor_bounds _ _ Et)) as Hu.
  simpl. split; [exact Hu|].
  intros v H. injection H as <-. split; [exact Hu|].
  destruct (update_cases (currentFactor st) target) as [[Hs ->]|[_ ->]];
    [now right|now left].
Qed.

(** Whatever hands the detector reports, frame after frame, as long as
    their coordinates are numbers (a landmark here has real coordinates;
    a NaN coordinate is outside this statement): the signal kept in
    [currentFactor] and every value handed to [onGestureChange] lie in
    [-1, 1]; a value handed on is 0 or at least 0.1 in absolute value; so
    the indicator bar is never wider than 50 percent, and is either empty
    or at least 5 percent wide. *)
Theorem gesture_signal_bounded :
  forall (fs : list Frame),
    -1 <= currentFactor (fst (feed fs init)) <= 1 /\
    (forall v : R, In (Emitted v) (snd (feed fs init)) ->
       -1 <= v <= 1 /\
       0 <= barWidth v <= 50 /\
       (barWidth v = 0 \/ 5 <= barWidth v)).
Proof.
  intros fs.
  assert (H0 : -1 <= currentFactor init <= 1) by (simpl; lra).
  generalize init H0. induction fs as [|f fs IH]; intros st Hst.
  - simpl. split; [exact Hst|intros v []].
  - simpl. destruct (call_bounds f st Hst) as [Hb Hv].
    destruct (call f st) as [st' o]. simpl in *.
    destruct (IH st' Hb) as [IH1 IH2].
    destruct (feed fs st') as [st'' os]. simpl in *.
    split; [exact IH1|].
    intros v [->|Hin]; [|now apply IH2].
    destruct (Hv v eq_refl) as [Hr Hz]. unfold barWidth.
    split; [exact Hr|]. split.
    + split_abs; lra.
    + destruct Hz as [->|Hz]; [left; rewrite Rabs_R0; lra|right; lra].
Qed.

Lemma gesture_signal_bounded_witness :
  -1 <= 0.15 <= 1 /\ 0 <= barWidth 0.15 <= 50 /\
  (barWidth 0.15 = 0 \/ 5 <= barWidth 0.15).
Proof.
  destruct (gesture_signal_bounded [mkFrame true 0 [openHand]]) as [_ H].
  apply (H 0.15). unfold feed, call; simpl.
  rewrite predictWebcam_open. simpl. now left.
Defined.

(** A video frame is classified once: after a call made with both video
    and landmarker present, a further call for the same [currentTime]
    does nothing, whatever the detector would report (also when the
    first call threw). *)
Theorem stale_frame_skipped :
  forall (videoTime : R) (results results' : list (list Landmark))
         (ready' : bool) (st : State),
    let st' := fst (predictWebcam true videoTime results st) in
    lastVideoTime st' = videoTime /\
    predictWebcam ready' videoTime results' st' = (st', Skipped).
Proof.
  intros videoTime results results' ready' st st'.
  assert (E : lastVideoTime st' = videoTime).
  { unfold st', predictWebcam. simpl.
    destruct (Req_dec_T videoTime (lastVideoTime st)) as [->|_];
      [reflexivity|].
    now destruct (targetFactor results). }
  split; [exact E|].
  unfold predictWebcam. destruct (negb ready'); [reflexivity|].
  rewrite E. destruct (Req_dec_T videoTime videoTime); [reflexivity|].
  congruence.
Qed.

Lemma ratioOf_hand (landmarks : list Landmark) :
  ratioOf landmarks = None <-> (length landmarks < 21)%nat.
Proof.
  split.
  - intros H.
    destruct (Nat.lt_ge_cases (length landmarks) 21) as [Hl|Hl];
      [exact Hl|].
    exfalso.
    do 21 (destruct landmarks as [|? landmarks]; [simpl in Hl; lia|]).
    discriminate H.
  - intros H.
    do 21 (destruct landmarks as [|? landmarks]; [reflexivity|]).
    simpl in H. lia.
Qed.

(** A hand with fewer than the 21 landmarks makes the call throw, and
    only such a hand does: the signal is left as it was, nothing is
    handed on, and the frame counts as seen. *)
Theorem short_hand_throws :
  forall (videoTime : R) (landmarks : list Landmark)
         (others : list (list Landmark)) (st : State),
    videoTime <> lastVideoTime st ->
    (snd (predictWebcam true videoTime (landmarks :: others) st) = Thrown
     <-> (length landmarks < 21)%nat) /\
    ((length landmarks < 21)%nat ->
     predictWebcam true videoTime (landmarks :: others) st
     = (mkState videoTime (currentFactor st), Thrown)).
Proof.
  intros videoTime landmarks others st Hne.
  unfold predictWebcam, targetFactor. simpl.
  destruct (Req_dec_T videoTime (lastVideoTime st)); [contradiction|].
  destruct (ratioOf landmarks) as [ratio|] eqn:E; simpl.
  - assert (Hl : ~ (length landmarks < 21)%nat).
    { intros Hl. apply ratioOf_hand in Hl. congruence. }
    split; [split; [discriminate|contradiction]|contradiction].
  - apply ratioOf_hand in E. split; [split; auto|auto].
Qed.

Lemma short_hand_throws_witness :
  predictWebcam true 0 [[mkLandmark 0 0 0]] init = (mkState 0 0, Thrown).
Proof.
  assert (H : 0 <> lastVideoTime init) by (simpl; lra).
  destruct (short_hand_throws 0 [mkLandmark 0 0 0] [] init H) as [_ Ht].
  apply Ht. simpl. lia.
Defined.

Lemma distFrom_moved (k tx ty tz : R) (w p : Landmark) :
  distFrom (moved k tx ty tz w) (moved k tx ty tz p) = Rabs k * distFrom w p.
Proof.
  unfold distFrom, moved; simpl.
  set (S := (x p - x w) * ((x p - x w) * 1) + (y p - y w) * ((y p - y w) * 1)
            + (z p - z w) * ((z p - z w) * 1)).
  replace ((k * x p + tx - (k * x w + tx)) * ((k * x p + tx - (k * x w + tx)) * 1)
           + (k * y p + ty - (k * y w + ty)) * ((k * y p + ty - (k * y w + ty)) * 1)
           + (k * z p + tz - (k * z w + tz)) * ((k * z p + tz - (k * z w + tz)) * 1))
    with (Rsqr k * S) by (unfold S, Rsqr; ring).
  assert (HS : 0 <= S).
  { pose proof (Rle_0_sqr (x p - x w)). pose proof (Rle_0_sqr (y p - y w)).
    pose proof (Rle_0_sqr (z p - z w)). unfold Rsqr in *. unfold S. lra. }
  rewrite sqrt_mult by (try apply Rle_0_sqr; exact HS).
  now rewrite sqrt_Rsqr_abs.
Qed.

(** The classifier does not depend on the size of the hand in the image
    nor on where it is: scaling all landmarks of a hand by a non-zero
    factor and shifting them gives the same target factor, as long as
    wrist and middle knuckle do not coincide. *)
Theorem hand_size_invariance :
  forall (k tx ty tz : R) (landmarks : list Landmark)
         (others others' : list (list Landmark)),
    k <> 0 ->
    length landmarks = 21%nat ->
    scaleReference landmarks <> 0 ->
    targetFactor ((moved k tx ty tz <$> landmarks) :: others)
    = targetFactor (landmarks :: others').
Proof.
  intros k tx ty tz landmarks others others' Hk Hlen Hs.
  unfold targetFactor.
  rewrite (ratioOf_full_hand landmarks Hlen).
  rewrite (ratioOf_full_hand (moved k tx ty tz <$> landmarks))
    by now rewrite length_fmap.
  simpl. do 2 f_equal.
  do 22 (destruct landmarks as [|? landmarks]; try discriminate Hlen).
  unfold meanTipDistance, scaleReference, point in *.
  cbn [fmap list_fmap nth] in *.
  rewrite !distFrom_moved.
  assert (Hak : Rabs k <> 0) by now apply Rabs_no_R0.
  destruct (orOne_spec (distFrom l l8)) as [_ ->]; [|exact Hs].
  destruct (orOne_spec (Rabs k * distFrom l l8)) as [_ ->].
  - field. split; assumption.
  - intros H. apply Rmult_integral in H. destruct H; contradiction.
Qed.

Lemma hand_size_invariance_witness :
  targetFactor [moved 2 5 0 0 <$> flatHand] = targetFactor [flatHand].
Proof.
  apply hand_size_invariance.
  - lra.
  - reflexivity.
  - unfold scaleReference, point, flatHand, distFrom; simpl.
    replace ((1 - 0) * ((1 - 0) * 1) + (0 - 0) * ((0 - 0) * 1)
             + (0 - 0) * ((0 - 0) * 1)) with 1 by lra.
    rewrite sqrt_1. lra.
Defined.

End GestureFacts.

(** ** More on the wish in flight *)

Section WishFacts.
Import Wish WishRun.

#[local] Open Scope R_scope.

Lemma getPoint_ends (c : Curve) : getPoint c 0 = v0 c /\ getPoint c 1 = v2 c.
Proof.
  destruct c as [[a0 a1 a2] [b0 b1 b2] [c0 c1 c2]].
  unfold getPoint, QuadraticBezier; simpl. split; f_equal; ring.
Qed.

Lemma stateAfter_app (c : Curve) (pre rest : list R) :
  stateAfter c (pre ++ rest) = frameState c rest (stateAfter c pre).
Proof. unfold stateAfter, frameState. now rewrite frames_app. Qed.

Lemma frameState_cons (c : Curve) (d : R) (rest : list R) (w : State) :
  frameState c (d :: rest) w = frameState c rest (fst (useFrame c d w)).
Proof.
  unfold frameState; simpl. destruct (useFrame c d w) as [w' hit]. simpl.
  destruct (frames c rest w'). reflexivity.
Qed.

(** The flight ends on the target.  Whatever start the curve of the
    component was drawn with, the frame callback that takes the progress
    from below 1 to 1 or more puts the group exactly at
    [targetPosition]; and a frame callback that starts with the progress
    at 1 or more (impact, dissolve, or finished) leaves the group where
    it is.  (This is about the frame callbacks; the position prop that a
    re-render passes to the group is not part of it.) *)
Theorem wish_lands_on_target :
  forall (rnd : R) (targetPosition : Vec3) (delta : R) (w : State),
    let c := curveOf rnd targetPosition in
    (finished w = false -> groupRef w = true ->
     progress w < 1 -> 1 <= progress w + delta * 0.8 ->
     position (fst (useFrame c delta w)) = targetPosition /\
     1 <= progress (fst (useFrame c delta w))) /\
    (1 <= progress w ->
     position (fst (useFrame c delta w)) = position w /\
     progress (fst (useFrame c delta w)) = progress w).
Proof.
  intros rnd targetPosition delta w c. split.
  - intros Hf Hg Hp H1.
    rewrite useFrame_flight by assumption. simpl.
    split; [|exact H1].
    rewrite Rmin_right by exact H1.
    rewrite ease_high by lra.
    replace (1 - (-2 * 1 + 2) * (-2 * 1 + 2) * (-2 * 1 + 2) / 2) with 1
      by lra.
    apply (getPoint_ends c).
  - intros Hp. unfold useFrame.
    destruct (finished w || negb (groupRef w)); [now split|].
    destruct (Rlt_dec (progress w) 1); [lra|].
    destruct (negb (exploded w)); now split.
Qed.

Lemma wish_lands_on_target_witness :
  position (fst (useFrame sampleCurve 2 (spawn sampleCurve))) = mkVec3 0 2 0 /\
  1 <= progress (fst (useFrame sampleCurve 2 (spawn sampleCurve))).
Proof.
  apply (wish_lands_on_target 0.5 (mkVec3 0 2 0) 2 (spawn sampleCurve));
    simpl; try reflexivity; lra.
Defined.

Lemma total_nonneg (deltas : list R) :
  Forall (fun d => 0 <= d) deltas -> 0 <= total deltas.
Proof.
  induction 1 as [|d l Hd _ IH]; simpl; [lra|]. unfold total in *. simpl. lra.
Qed.

Lemma flight_progress (c : Curve) (deltas : list R) (w : State) :
  sound w -> Forall (fun d => 0 <= d) deltas ->
  (progress w + 0.8 * total deltas < 1 ->
   progress (frameState c deltas w) = progress w + 0.8 * total deltas) /\
  (1 <= progress w + 0.8 * total deltas ->
   1 <= progress (frameState c deltas w)).
Proof.
  intros Hw Hd. revert w Hw.
  induction Hd as [|d l Hd Hl IH]; intros w Hw.
  - unfold frameState, total; simpl. split; intros; lra.
  - rewrite frameState_cons.
    destruct (useFrame_sound c d w Hw) as (Hs' & _).
    specialize (IH _ Hs').
    pose proof (total_nonneg l Hl) as Hn.
    change (total (d :: l)) with (d + total l).
    destruct Hw as (Hg & He & Hf).
    destruct (Rlt_dec (progress w) 1) as [Hp|Hp].
    + assert (Ex : exploded w = false).
      { destruct (exploded w); [|reflexivity]. specialize (He eq_refl). lra. }
      assert (Ef : finished w = false).
      { destruct (finished w); [|reflexivity].
        specialize (Hf eq_refl). congruence. }
      rewrite useFrame_flight in * by assumption. simpl in *.
      destruct IH as [IH1 IH2]. split; intros H.
      * rewrite IH1 by lra. lra.
      * apply IH2. lra.
    + assert (E : progress (fst (useFrame c d w)) = progress w).
      { unfold useFrame.
        destruct (finished w || negb (groupRef w)); [reflexivity|].
        destruct (Rlt_dec (progress w) 1); [contradiction|].
        now destruct (negb (exploded w)). }
      rewrite E in IH. destruct IH as [IH1 IH2]. split; intros H.
      * lra.
      * apply IH2. lra.
Qed.

(** With frame deltas that are not negative, the flight takes 1.25 s of
    frame time: while the deltas add up to less, the progress is 0.8
    times their sum and no impact has been signalled; once they add up
    to 1.25 or more, the progress is at 1 or beyond. *)
Theorem flight_takes_five_quarters :
  forall (c : Curve) (deltas : list R),
    Forall (fun d => 0 <= d) deltas ->
    (total deltas < 1.25 ->
     progress (stateAfter c deltas) = 0.8 * total deltas /\
     exploded (stateAfter c deltas) = false /\
     impacts c deltas = 0%nat) /\
    (1.25 <= total deltas -> 1 <= progress (stateAfter c deltas)).
Proof.
  intros c deltas Hd.
  destruct (flight_progress c deltas (spawn c) (sound_spawn c) Hd)
    as [H1 H2].
  change (frameState c deltas (spawn c)) with (stateAfter c deltas) in *.
  simpl in H1, H2. split.
  - intros Ht.
    assert (E : progress (stateAfter c deltas) = 0.8 * total deltas)
      by (rewrite H1; lra).
    assert (Ex : exploded (stateAfter c deltas) = false).
    { destruct (stateAfter_sound c deltas) as (_ & He & _).
      destruct (exploded (stateAfter c deltas)); [|reflexivity].
      specialize (He eq_refl). lra. }
    split; [exact E|]. split; [exact Ex|].
    rewrite impacts_count. now rewrite Ex.
  - intros Ht. apply H2. lra.
Qed.

Lemma flight_takes_five_quarters_witness :
  progress (stateAfter sampleCurve [0.5; 0.5]) = 0.8 * total [0.5; 0.5] /\
  exploded (stateAfter sampleCurve [0.5; 0.5]) = false /\
  impacts sampleCurve [0.5; 0.5] = 0%nat.
Proof.
  apply flight_takes_five_quarters.
  - repeat constructor; lra.
  - unfold total; simpl. lra.
Defined.

Lemma frameState_finished (c : Curve) (deltas : list R) (w : State) :
  finished w = true -> frameState c deltas w = w.
Proof.
  intros Hf. induction deltas as [|d l IH]; [reflexivity|].
  rewrite frameState_cons, useFrame_idle by now left. exact IH.
Qed.

(** The dissolve, from a state that has exploded: the scale grows by the
    factor 1.1 a frame, and the wish is finished exactly when that has
    taken the scale above 5. *)
Lemma dissolve_frames (c : Curve) (deltas : list R) (w : State) (s : R) :
  groupRef w = true -> exploded w = true -> finished w = false ->
  1 <= progress w -> vx (scale w) = s -> 0 < s <= 5 ->
  (finished (frameState c deltas w) = true <-> 5 < s * 1.1 ^ length deltas).
Proof.
  revert w s. induction deltas as [|d l IH]; intros w s Hg He Hf Hp Hs Hpos.
  - unfold frameState; simpl. rewrite Hf. split; [discriminate|]. lra.
  - rewrite frameState_cons.
    destruct (useFrame_dissolve c d w Hf Hg Hp He) as (_ & E1 & E2 & E3 & E4).
    assert (Hfin : finished (fst (useFrame c d w))
                   = if Rlt_dec 5 (s * 1.1) then true else false).
    { unfold useFrame. rewrite Hf, Hg, He. simpl.
      destruct (Rlt_dec (progress w) 1); [lra|]. simpl. now rewrite Hs. }
    set (w' := fst (useFrame c d w)) in *.
    assert (Hs' : vx (scale w') = s * 1.1)
      by (rewrite E4; simpl; now rewrite Hs).
    simpl length. simpl pow.
    assert (Hpow : 1 <= 1.1 ^ length l) by (apply pow_R1_Rle; lra).
    destruct (Rlt_dec 5 (s * 1.1)) as [H5|H5].
    + rewrite frameState_finished by exact Hfin. rewrite Hfin.
      split; [intros _; nra|reflexivity].
    + assert (Hp' : 1 <= progress w') by (rewrite E2; exact Hp).
      assert (Hf' : finished w' = false) by exact Hfin.
      assert (Hb : 0 < s * 1.1 <= 5) by lra.
      rewrite (IH w' (s * 1.1) E3 E1 Hf' Hp' Hs' Hb).
      split; intros H; nra.
Qed.

(** Until it explodes the wish keeps the scale it was mounted with. *)
Lemma scale_before_explosion (c : Curve) (deltas : list R) :
  exploded (stateAfter c deltas) = false ->
  scale (stateAfter c deltas) = mkVec3 1 1 1.
Proof.
  induction deltas as [|d deltas IH] using rev_ind; [reflexivity|].
  rewrite stateAfter_snoc.
  destruct (stateAfter_sound c deltas) as (Hg & He & Hf).
  set (w := stateAfter c deltas) in *.
  unfold useFrame. destruct (finished w) eqn:Ef; simpl.
  { intros H. rewrite Hf in H by reflexivity. discriminate. }
  rewrite Hg. simpl.
  destruct (Rlt_dec (progress w) 1); simpl; [exact IH|].
  destruct (exploded w); simpl; [discriminate|discriminate].
Qed.

(** After the frame of the impact the dissolve takes 17 frames, whatever
    their deltas: the wish is finished (and no longer rendered) exactly
    when at least 17 frames have followed the impact. *)
Theorem dissolve_takes_17_frames :
  forall (c : Curve) (pre : list R) (d : R) (rest : list R),
    impactAt c (pre ++ d :: rest) (length pre) = true ->
    (finished (stateAfter c (pre ++ d :: rest)) = true
     <-> (17 <= length rest)%nat).
Proof.
  intros c pre d rest Himp.
  rewrite impactAt_frame in Himp.
  pose proof (stateAfter_sound c pre) as Hw.
  destruct (useFrame_sound c d _ Hw) as (_ & Hhit & _).
  apply Hhit in Himp as [Hp Hex].
  pose proof (scale_before_explosion c pre Hex) as Hsc.
  destruct Hw as (Hg & _ & Hf).
  assert (Ef : finished (stateAfter c pre) = false).
  { destruct (finished (stateAfter c pre)); [|reflexivity].
    rewrite Hf in Hex by reflexivity. discriminate. }
  replace (pre ++ d :: rest) with ((pre ++ [d]) ++ rest)
    by now rewrite <- app_assoc.
  rewrite stateAfter_app, stateAfter_snoc.
  rewrite useFrame_impact by assumption. simpl fst.
  rewrite (dissolve_frames c rest _ 1); simpl; try assumption;
    try reflexivity; try lra; [|now rewrite Hsc].
  rewrite Rmult_1_l. split.
  - intros H. destruct (Nat.le_gt_cases 17 (length rest)) as [|Hlt];
      [assumption|].
    exfalso.
    assert (Hle : 1.1 ^ length rest <= 1.1 ^ 16)
      by (apply Rle_pow; [lra|lia]).
    assert (H16 : 1.1 ^ 16 <= 5) by (simpl; lra).
    lra.
  - intros H.
    assert (Hle : 1.1 ^ 17 <= 1.1 ^ length rest)
      by (apply Rle_pow; [lra|exact H]).
    assert (H17 : 5 < 1.1 ^ 17) by (simpl; lra).
    lra.
Qed.

Lemma dissolve_takes_17_frames_witness :
  finished (stateAfter sampleCurve ([2] ++ 1 :: replicate 17 0)) = true.
Proof.
  apply dissolve_takes_17_frames.
  - rewrite impactAt_frame.
    destruct (stateAfter_sound sampleCurve [2]) as (Hg & He & Hf).
    destruct sample_first_frame as [Hp _].
    assert (Ex : exploded (stateAfter sampleCurve [2]) = false).
    { rewrite stateAfter_one.
      rewrite useFrame_flight; simpl; try reflexivity; lra. }
    assert (Ef : finished (stateAfter sampleCurve [2]) = false).
    { destruct (finished (stateAfter sampleCurve [2])); [|reflexivity].
      rewrite Hf in Ex by reflexivity. discriminate. }
    rewrite useFrame_impact; try assumption; [reflexivity|lra].
  - rewrite length_replicate. lia.
Defined.

(** Every particle of the cluster lies on the sphere whose radius is its
    first draw times 0.15, so, the draw being below 1, within 0.15 of the
    centre of the group. *)
Theorem cluster_within_radius :
  forall u1 u2 u3 : R,
    0 <= u1 < 1 ->
    let p := clusterPoint u1 u2 u3 in
    vx p * vx p + vy p * vy p + vz p * vz p = (u1 * 0.15) * (u1 * 0.15) /\
    vx p * vx p + vy p * vy p + vz p * vz p < 0.15 * 0.15.
Proof.
  intros u1 u2 u3 Hu p.
  assert (E : vx p * vx p + vy p * vy p + vz p * vz p
              = (u1 * 0.15) * (u1 * 0.15)).
  { unfold p, clusterPoint; simpl.
    pose proof (sin2_cos2 (acos (2 * u3 - 1))) as Hphi.
    pose proof (sin2_cos2 (u2 * PI * 2)) as Hth.
    unfold Rsqr in Hphi, Hth.
    set (sp := sin (acos (2 * u3 - 1))) in *.
    set (cp := cos (acos (2 * u3 - 1))) in *.
    set (st := sin (u2 * PI * 2)) in *.
    set (ct := cos (u2 * PI * 2)) in *.
    replace (u1 * 0.15 * sp * ct * (u1 * 0.15 * sp * ct)
             + u1 * 0.15 * sp * st * (u1 * 0.15 * sp * st)
             + u1 * 0.15 * cp * (u1 * 0.15 * cp))
      with ((u1 * 0.15) * (u1 * 0.15)
            * (sp * sp * (st * st + ct * ct) + cp * cp)) by ring.
    rewrite Hth, Rmult_1_r, Hphi. ring. }
  split; [exact E|]. rewrite E. nra.
Qed.

Lemma cluster_within_radius_witness :
  let p := clusterPoint 0.5 0.25 0.5 in
  vx p * vx p + vy p * vy p + vz p * vz p < 0.15 * 0.15.
Proof.
  apply (cluster_within_radius 0.5 0.25 0.5). lra.
Defined.

End WishFacts.

(** ** The cake: boost, scale, geometry buffers *)

Section CakeFacts.
Import Cake.

#[local] Open Scope R_scope.
#[local] Existing Instance Confetti.R_inhabited.

Lemma useFrame_boost (groupRef : bool) (elapsed delta gestureFactor : R)
    (st : State) :
  boostRef (useFrame true groupRef elapsed delta gestureFactor st)
  = boostRef st * (1 - 2.5 * delta) /\
  uBoost (useFrame true groupRef elapsed delta gestureFactor st)
  = boostRef (useFrame true groupRef elapsed delta gestureFactor st).
Proof. unfold useFrame, lerp; simpl. split; [ring|reflexivity]. Qed.

Lemma frames_snoc (fs : list (R * R)) (delta gestureFactor : R) (st : State) :
  frames (fs ++ [(delta, gestureFactor)]) st
  = useFrame true true 0 delta gestureFactor (frames fs st).
Proof.
  revert st. induction fs as [|[d g0] fs IH]; intros st; simpl;
    [reflexivity|apply IH].
Qed.

(** The boost after an impact.  [handleWishImpact] puts it at 2.5.  Over
    frames whose deltas lie between 0 and 0.4 s it never grows and never
    becomes negative, so it stays within [0, 2.5]; over [n] frames of one
    and the same delta it is multiplied by [(1 - 2.5 * delta) ^ n]; and a
    single frame longer than 0.4 s takes a positive boost below 0. *)
Theorem boost_decays :
  forall (fs : list (R * R)) (st : State),
    Forall (fun f => 0 <= fst f <= 0.4) fs ->
    let st0 := handleWishImpact st in
    boostRef st0 = 2.5 /\
    0 <= boostRef (frames fs st0) <= 2.5 /\
    (forall delta gestureFactor,
       0 <= delta <= 0.4 ->
       boostRef (frames (fs ++ [(delta, gestureFactor)]) st0)
       <= boostRef (frames fs st0)) /\
    (forall delta gestureFactor,
       0.4 < delta -> 0 < boostRef (frames fs st0) ->
       boostRef (frames (fs ++ [(delta, gestureFactor)]) st0) < 0) /\
    (forall (n : nat) (delta gestureFactor : R),
       boostRef (frames (replicate n (delta, gestureFactor)) st0)
       = 2.5 * (1 - 2.5 * delta) ^ n).
Proof.
  intros fs st Hfs st0.
  assert (Hb : 0 <= boostRef (frames fs st0) <= 2.5).
  { assert (Hgen : forall s, 0 <= boostRef s <= 2.5 ->
                       0 <= boostRef (frames fs s) <= 2.5).
    { clear st st0.
      induction Hfs as [|[d g0] fs [Hd1 Hd2] _ IH]; intros s Hs; simpl in *.
      - exact Hs.
      - apply IH. destruct (useFrame_boost true 0 d g0 s) as [-> _]. nra. }
    apply Hgen. simpl. lra. }
  split; [reflexivity|]. split; [exact Hb|]. split; [|split].
  - intros delta g0 Hd. rewrite frames_snoc.
    destruct (useFrame_boost true 0 delta g0 (frames fs st0)) as [-> _]. nra.
  - intros delta g0 Hd Hpos. rewrite frames_snoc.
    destruct (useFrame_boost true 0 delta g0 (frames fs st0)) as [-> _]. nra.
  - intros n delta g0.
    assert (H : forall s, boostRef (frames (replicate n (delta, g0)) s)
                          = boostRef s * (1 - 2.5 * delta) ^ n).
    { induction n as [|n IH]; intros s; simpl; [ring|].
      rewrite IH. destruct (useFrame_boost true 0 delta g0 s) as [-> _].
      ring. }
    rewrite H. reflexivity.
Qed.

Lemma boost_decays_witness :
  0 <= boostRef (frames [(0.016, 0); (0.016, 0)] (handleWishImpact init)) <= 2.5.
Proof.
  apply (boost_decays [(0.016, 0); (0.016, 0)] init).
  repeat constructor; simpl; lra.
Defined.

Lemma useFrame_scale (materialRef : bool) (elapsed delta gestureFactor : R)
    (st : State) :
  currentScale (useFrame materialRef true elapsed delta gestureFactor st)
  = currentScale st
    + (1 + Rmax 0 gestureFactor * 2 - currentScale st) * 0.1 /\
  groupScale (useFrame materialRef true elapsed delta gestureFactor st)
  = currentScale (useFrame materialRef true elapsed delta gestureFactor st).
Proof. unfold useFrame; simpl. split; [lra|reflexivity]. Qed.

(** The scale of the cake.  Fed with gesture factors up to 1, from mount
    on, the scale stays between 1 and 3 and the group carries it; every
    frame closes a tenth of the gap to [1 + 2 * max(0, gesture)] without
    passing it; and as long as the gesture is a fist or neutral (factor
    at most 0) the scale stays at exactly 1. *)
Theorem cake_scale_bounded :
  forall (fs : list (R * R)),
    Forall (fun f => snd f <= 1) fs ->
    1 <= currentScale (frames fs init) <= 3 /\
    groupScale (frames fs init) = currentScale (frames fs init) /\
    (Forall (fun f => snd f <= 0) fs -> currentScale (frames fs init) = 1) /\
    (forall delta gestureFactor,
       let target := 1 + 2 * Rmax 0 gestureFactor in
       let s := currentScale (frames fs init) in
       let s' := currentScale (frames (fs ++ [(delta, gestureFactor)]) init) in
       s' - target = 0.9 * (s - target)).
Proof.
  intros fs Hfs.
  assert (H : 1 <= currentScale (frames fs init) <= 3 /\
              groupScale (frames fs init) = currentScale (frames fs init)).
  { assert (H0 : 1 <= currentScale init <= 3 /\
                 groupScale init = currentScale init) by (simpl; split; lra).
    generalize init H0.
    induction Hfs as [|[d g0] fs Hg _ IH]; intros s Hs; simpl in *.
    - exact Hs.
    - apply IH. destruct (useFrame_scale true 0 d g0 s) as [E1 E2].
      split; [|exact E2]. rewrite E1. destruct Hs as [Hs _].
      unfold Rmax. destruct (Rle_dec 0 g0); lra. }
  destruct H as [H1 H2]. split; [exact H1|]. split; [exact H2|]. split.
  - clear. intros Hfs.
    assert (H0 : currentScale init = 1) by (simpl; lra).
    generalize init H0.
    induction Hfs as [|[d g0] fs Hg _ IH]; intros s Hs; simpl in *.
    + exact Hs.
    + apply IH. destruct (useFrame_scale true 0 d g0 s) as [-> _].
      rewrite Hs. unfold Rmax. destruct (Rle_dec 0 g0); lra.
  - intros delta g0 target s s'. unfold s', s, target.
    rewrite frames_snoc.
    destruct (useFrame_scale true 0 delta g0 (frames fs init)) as [-> _].
    lra.
Qed.

Lemma cake_scale_bounded_witness :
  1 <= currentScale (frames [(0.016, 1); (0.016, -1)] init) <= 3.
Proof.
  apply (cake_scale_bounded [(0.016, 1); (0.016, -1)]).
  repeat constructor; simpl; lra.
Defined.

Lemma addPoints_snoc (cap : nat) (pts : list Point) (p : Point) (bf : Buffer) :
  addPoints cap (pts ++ [p]) bf = addPoint cap (addPoints cap pts bf) p.
Proof. unfold addPoints. now rewrite fold_left_app. Qed.

(** The buffers after the points [pts]: sizes as allocated, the index at
    the number of points kept, and every point kept read back from its
    slot. *)
Lemma addPoints_spec (cap : nat) (pts : list Point) (bf : Buffer) :
  allocated cap bf ->
  let bf' := addPoints cap pts bf in
  length (pos bf') = (cap * 3)%nat /\
  length (col bf') = (cap * 3)%nat /\
  length (sz bf') = cap /\
  idx bf' = Nat.min (length pts) cap /\
  (forall (k : nat) (p : Point),
     pts !! k = Some p -> (k < cap)%nat ->
     pos bf' !!! (k * 3)%nat = px p /\
     pos bf' !!! (k * 3 + 1)%nat = py p /\
     pos bf' !!! (k * 3 + 2)%nat = pz p /\
     col bf' !!! (k * 3)%nat = r (pc p) /\
     col bf' !!! (k * 3 + 1)%nat = g (pc p) /\
     col bf' !!! (k * 3 + 2)%nat = b (pc p) /\
     sz bf' !!! k = ps p).
Proof.
  intros (A1 & A2 & A3 & A4).
  induction pts as [|q pts IH] using rev_ind.
  - simpl. split; [exact A1|]. split; [exact A2|]. split; [exact A3|].
    split; [exact A4|]. intros k p H. discriminate H.
  - intros bf'. unfold bf'. rewrite addPoints_snoc.
    simpl in IH. destruct IH as (L1 & L2 & L3 & Li & Hk).
    set (b0 := addPoints cap pts bf) in *.
    rewrite length_app. simpl length.
    unfold addPoint.
    destruct (Nat.leb_spec cap (idx b0)) as [Hfull|Hroom].
    + split; [exact L1|]. split; [exact L2|]. split; [exact L3|].
      split; [lia|].
      intros k p Hp Hc.
      apply lookup_app_Some in Hp as [Hp|[Hlen Hp]]; [now apply Hk|].
      lia.
    + simpl. rewrite !length_insert.
      split; [exact L1|]. split; [exact L2|]. split; [exact L3|].
      split; [lia|].
      assert (Ei : idx b0 = length pts) by lia.
      intros k p Hp Hc.
      apply lookup_app_Some in Hp as [Hp|[Hlen Hp]].
      * assert (Hlt : (k < length pts)%nat) by now apply lookup_lt_Some in Hp.
        destruct (Hk k p Hp Hc) as (P0 & P1 & P2 & C0 & C1 & C2 & S0).
        rewrite Ei. repeat split; slots; assumption.
      * assert (Ek : k = length pts).
        { destruct (k - length pts)%nat eqn:E; [lia|].
          simpl in Hp. discriminate Hp. }
        subst k. rewrite Nat.sub_diag in Hp. simpl in Hp.
        injection Hp as <-. rewrite Ei. repeat split; slots.
Qed.

(** [addPoint] keeps to the buffers: from freshly allocated buffers for
    [cap] points, whatever points are added, the sizes of the buffers do
    not change, the index is the number of points added or [cap] if that
    is less, each of the first [cap] points is read back from its slot,
    and a point added to full buffers changes nothing.  The three loops
    of the component add exactly [PARTICLES_CAKE] points. *)
Theorem addPoint_bounded :
  forall (cap : nat) (pts : list Point) (bf : Buffer),
    allocated cap bf ->
    let bf' := addPoints cap pts bf in
    length (pos bf') = (cap * 3)%nat /\
    length (col bf') = (cap * 3)%nat /\
    length (sz bf') = cap /\
    idx bf' = Nat.min (length pts) cap /\
    (forall (k : nat) (p : Point),
       pts !! k = Some p -> (k < cap)%nat ->
       pos bf' !!! (k * 3)%nat = px p /\
       pos bf' !!! (k * 3 + 1)%nat = py p /\
       pos bf' !!! (k * 3 + 2)%nat = pz p /\
       col bf' !!! (k * 3)%nat = r (pc p) /\
       col bf' !!! (k * 3 + 1)%nat = g (pc p) /\
       col bf' !!! (k * 3 + 2)%nat = b (pc p) /\
       sz bf' !!! k = ps p) /\
    (forall p : Point, (cap <= length pts)%nat -> addPoint cap bf' p = bf') /\
    (bottomCount + topCount + plateCount = PARTICLES_CAKE)%N.
Proof.
  intros cap pts bf Ha bf'.
  destruct (addPoints_spec cap pts bf Ha) as (L1 & L2 & L3 & Li & Hk).
  fold bf' in L1, L2, L3, Li, Hk.
  repeat (split; [assumption|]). split; [|reflexivity].
  intros p Hfull. unfold addPoint.
  destruct (Nat.leb_spec cap (idx bf')); [reflexivity|lia].
Qed.

Lemma addPoint_bounded_witness :
  let bf := mkBuffer (replicate 3 0) (replicate 3 0) (replicate 1 0) 0 in
  let p1 := mkPoint 1 2 3 (mkColor 1 1 0) 0.02 in
  let p2 := mkPoint 4 5 6 (mkColor 0 1 1) 0.03 in
  idx (addPoints 1 [p1; p2] bf) = 1%nat /\
  pos (addPoints 1 [p1; p2] bf) !!! 1%nat = 2.
Proof.
  intros bf p1 p2.
  assert (Ha : allocated 1 bf) by (repeat split).
  destruct (addPoint_bounded 1 [p1; p2] bf Ha) as (_ & _ & _ & Hi & Hk & _).
  split; [exact Hi|].
  destruct (Hk 0%nat p1 eq_refl ltac:(lia)) as (_ & H & _). exact H.
Defined.

(** The white and the gold specks sit on the outside of the cake only,
    and thin out with height: [getPointColor] answers light pink or gold
    exactly when the point is outer ([r / maxR > 0.88]) and the first
    draw is below half the height factor; so, the draw not being
    negative, never at or above the total height, and never inside. *)
Theorem specks_on_the_outside :
  forall rnd1 rnd2 r0 maxR y totalHeight : R,
    let heightFactor := 1 - Rmin (Rmax (y / totalHeight) 0) 1 in
    let tint := getPointColor rnd1 rnd2 r0 maxR y totalHeight in
    0 <= heightFactor <= 1 /\
    ((tint = COLOR_LIGHT_PINK \/ tint = COLOR_GOLD) <->
     (0.88 < r0 / maxR /\ rnd1 < 0.5 * heightFactor)) /\
    (0 <= rnd1 -> 0 < totalHeight <= y ->
     tint = COLOR_WARM_PINK \/ tint = COLOR_SOFT_PINK).
Proof.
  intros rnd1 rnd2 r0 maxR y totalHeight heightFactor tint.
  assert (Hh : 0 <= heightFactor <= 1).
  { unfold heightFactor, Rmin, Rmax.
    destruct (Rle_dec (y / totalHeight) 0);
      destruct (Rle_dec _ 1); lra. }
  assert (Hiff : (tint = COLOR_LIGHT_PINK \/ tint = COLOR_GOLD) <->
                 (0.88 < r0 / maxR /\ rnd1 < 0.5 * heightFactor)).
  { unfold tint, getPointColor.
    assert (E0 : 0.0 = 0) by lra. assert (E1 : 1.0 = 1) by lra.
    rewrite E0, E1. fold heightFactor.
    destruct (Rlt_dec 0.88 (r0 / maxR)) as [Ho|Ho].
    - destruct (Rlt_dec rnd1 (0.3 * heightFactor)) as [H1|H1].
      + split; [intros _; split; [exact Ho|lra]|intros _; now left].
      + destruct (Rlt_dec rnd1 (0.3 * heightFactor + 0.2 * heightFactor))
          as [H2|H2].
        * split; [intros _; split; [exact Ho|lra]|intros _; now right].
        * split.
          -- destruct (Rlt_dec 0.5 rnd2); intros [H|H]; discriminate H.
          -- intros [_ H]. lra.
    - split.
      + destruct (Rlt_dec 0.6 rnd1); intros [H|H]; discriminate H.
      + intros [H _]. contradiction. }
  split; [exact Hh|]. split; [exact Hiff|].
  intros Hr [Ht Hy].
  assert (Hz : heightFactor = 0).
  { unfold heightFactor.
    assert (1 <= y / totalHeight).
    { apply (Rmult_le_reg_r totalHeight); [exact Ht|].
      unfold Rdiv. rewrite Rmult_assoc, Rinv_l by lra. lra. }
    rewrite Rmax_left by lra. rewrite Rmin_right by lra. lra. }
  assert (Hn : ~ (tint = COLOR_LIGHT_PINK \/ tint = COLOR_GOLD)).
  { intros H. apply Hiff in H as [_ H]. rewrite Hz in H. lra. }
  clear Hiff. destruct tint; auto; exfalso; apply Hn; auto.
Qed.

Lemma specks_on_the_outside_witness :
  getPointColor 0.1 0.7 1.4 1.4 1.6 1.6 = COLOR_WARM_PINK \/
  getPointColor 0.1 0.7 1.4 1.4 1.6 1.6 = COLOR_SOFT_PINK.
Proof.
  apply (specks_on_the_outside 0.1 0.7 1.4 1.4 1.6 1.6); lra.
Defined.

End CakeFacts.

(** ** The falling snow *)

Section SnowFacts.
Import Snow.

#[local] Open Scope R_scope.
#[local] Existing Instance Confetti.R_inhabited.

Lemma snow_body_wellFormed (n : nat) (delta : R) (f : Flakes) (i : nat) :
  wellFormed n f -> wellFormed n (body delta f i).
Proof.
  intros [H1 H2]. unfold wellFormed, body; simpl.
  destruct (Rlt_dec _ _); rewrite ?length_insert; now split.
Qed.

Lemma snow_body_fallen (n : nat) (delta : R) (f : Flakes) (i : nat) :
  wellFormed n f -> (i < n)%nat -> fallen delta f (body delta f i) i.
Proof.
  intros [H1 H2] Hi. unfold fallen, body; simpl.
  rewrite (list_lookup_total_insert_eq (positions f)) by lia.
  destruct (Rlt_dec _ _); repeat split; slots.
Qed.

Lemma snow_body_same (delta : R) (f : Flakes) (i j : nat) :
  j <> i -> same f (body delta f i) j.
Proof.
  intros Hj c Hc. unfold body; simpl.
  destruct (Rlt_dec _ _); slots.
Qed.

Lemma snow_loop (n : nat) (delta : R) (f : Flakes) (k : nat) :
  wellFormed n f -> (k <= n)%nat ->
  let f' := fold_left (body delta) (seq 0 k) f in
  wellFormed n f' /\
  speed f' = speed f /\
  (forall j, (j < k)%nat -> fallen delta f f' j) /\
  (forall j, (k <= j)%nat -> same f f' j).
Proof.
  intros Hf. induction k as [|k IH]; intros Hk f'.
  - subst f'; simpl. split; [exact Hf|]. split; [reflexivity|].
    split; [intros; lia|]. intros j _ c _. reflexivity.
  - destruct (IH ltac:(lia)) as (Hw & Hs & Hdone & Hrest). clear IH.
    subst f'. rewrite seq_S, fold_left_app. simpl.
    set (q := fold_left (body delta) (seq 0 k) f) in *.
    split; [now apply snow_body_wellFormed|].
    split; [exact Hs|]. split.
    + intros j Hj. destruct (Nat.eq_dec j k) as [->|Hne].
      * pose proof (snow_body_fallen n delta q k Hw ltac:(lia)) as (F0 & F2 & F1).
        pose proof (Hrest k (Nat.le_refl k)) as Hu.
        pose proof (Hu 0%nat ltac:(lia)) as U0.
        pose proof (Hu 1%nat ltac:(lia)) as U1.
        pose proof (Hu 2%nat ltac:(lia)) as U2.
        rewrite Nat.add_0_r in U0.
        unfold fallen. rewrite F0, F2, F1, Hs, U0, U1, U2. now repeat split.
      * pose proof (snow_body_same delta q k j Hne) as Hu.
        pose proof (Hu 0%nat ltac:(lia)) as U0.
        pose proof (Hu 1%nat ltac:(lia)) as U1.
        pose proof (Hu 2%nat ltac:(lia)) as U2.
        rewrite Nat.add_0_r in U0.
        unfold fallen. rewrite U0, U1, U2. apply Hdone. lia.
    + intros j Hj c Hc.
      rewrite (snow_body_same delta q k j ltac:(lia) c Hc).
      apply Hrest; [lia|exact Hc].
Qed.

(** One frame of snow over [n] flakes: every flake keeps its abscissa and
    depth and falls by its speed times the delta; one that would end
    below -10 is put back at 10.  So after a frame no flake is below -10,
    and a flake that was at 10 or lower and did not move up is at 10 or
    lower. *)
Theorem snow_stays_in_band :
  forall (n : nat) (delta : R) (f : Flakes),
    wellFormed n f ->
    let f' := useFrame n true delta f in
    wellFormed n f' /\
    speed f' = speed f /\
    forall i : nat, (i < n)%nat ->
      let y := positions f !!! (i * 3 + 1)%nat in
      let y' := positions f' !!! (i * 3 + 1)%nat in
      positions f' !!! (i * 3)%nat = positions f !!! (i * 3)%nat /\
      positions f' !!! (i * 3 + 2)%nat = positions f !!! (i * 3 + 2)%nat /\
      (y' = y - speed f !!! i * delta \/
       (y - speed f !!! i * delta < -10 /\ y' = 10)) /\
      -10 <= y' /\
      (y <= 10 -> 0 <= speed f !!! i * delta -> y' <= 10).
Proof.
  intros n delta f Hf f'.
  destruct (snow_loop n delta f n Hf (Nat.le_refl n)) as (Hw & Hs & Hdone & _).
  split; [exact Hw|]. split; [exact Hs|].
  intros i Hi y y'. destruct (Hdone i Hi) as (F0 & F2 & F1).
  unfold f', useFrame; simpl negb; cbv iota.
  split; [exact F0|]. split; [exact F2|].
  unfold y'. unfold f', useFrame; simpl negb; cbv iota. rewrite F1. fold y.
  destruct (Rlt_dec (y - speed f !!! i * delta) (-10)) as [H|H].
  - split; [right; now split|]. split; intros; lra.
  - split; [now left|]. split; intros; lra.
Qed.

Lemma snow_stays_in_band_witness :
  let f := mkFlakes [0; -9.9; 0] [0.5] in
  -10 <= positions (useFrame 1 true 1 f) !!! 1%nat.
Proof.
  intros f.
  assert (Hf : wellFormed 1 f) by (split; reflexivity).
  destruct (snow_stays_in_band 1 1 f Hf) as (_ & _ & H).
  destruct (H 0%nat ltac:(lia)) as (_ & _ & _ & Hy & _). exact Hy.
Defined.

End SnowFacts.

(** ** More on the confetti *)

Section ConfettiFacts.
Import Confetti ConfettiRun.

#[local] Open Scope R_scope.

(** A particle is drawn at scale 0 exactly when the step has taken it
    below -20, and at scale 1 otherwise. *)
Theorem confetti_culled_below_floor :
  forall (delta : R) (p : Pool) (i : nat),
    wellFormed count p -> (i < count)%nat ->
    let q := ConfettiExplosion true delta p in
    (instanceScale q !!! i = 0 \/ instanceScale q !!! i = 1) /\
    (instanceScale q !!! i = 0 <-> positions q !!! (i * 3 + 1)%nat < -20).
Proof.
  intros delta p i Hp Hi q.
  destruct (loop_spec count (Rmin delta 0.1) p count Hp (Nat.le_refl _))
    as (_ & _ & Hdone & _).
  destruct (Hdone i Hi) as (_ & _ & _ & _ & _ & _ & _ & _ & _ & Hs).
  unfold q, ConfettiExplosion, useFrame; simpl negb; cbv iota.
  rewrite Hs. destruct (Rlt_dec _ _) as [H|H].
  - split; [now left|]. split; [intros _; exact H|reflexivity].
  - split; [now right|]. split; [lra|contradiction].
Qed.

Lemma confetti_culled_below_floor_witness :
  instanceScale (ConfettiExplosion true 1 samplePool) !!! 0%nat = 0 \/
  instanceScale (ConfettiExplosion true 1 samplePool) !!! 0%nat = 1.
Proof.
  apply (confetti_culled_below_floor 1 samplePool 0 samplePool_wellFormed).
  unfold count. lia.
Defined.

(** The fall has a terminal velocity of [-360 * dt]: one step brings the
    vertical velocity 4 percent closer to it, so the velocity goes down
    when it is above that value, up when it is below, and stays when it
    is there. *)
Theorem confetti_terminal_velocity :
  forall (delta : R) (p : Pool) (i : nat),
    wellFormed count p -> (i < count)%nat ->
    let dt := Rmin delta 0.1 in
    let vy := velocities p !!! (i * 3 + 1)%nat in
    let vy' := velocities (ConfettiExplosion true delta p) !!! (i * 3 + 1)%nat in
    vy' - (-360 * dt) = 0.96 * (vy - (-360 * dt)) /\
    (vy' < vy <-> -360 * dt < vy) /\
    (vy' = vy <-> vy = -360 * dt).
Proof.
  intros delta p i Hp Hi dt vy vy'.
  destruct (loop_spec count dt p count Hp (Nat.le_refl _))
    as (_ & _ & Hdone & _).
  destruct (Hdone i Hi) as (_ & V1 & _).
  assert (E : vy' = (vy - 15 * dt) * 0.96).
  { unfold vy', ConfettiExplosion, useFrame; simpl negb; cbv iota.
    exact V1. }
  rewrite E. split; [lra|]. split; split; intros; lra.
Qed.

Lemma confetti_terminal_velocity_witness :
  velocities (ConfettiExplosion true 1 samplePool) !!! (0 * 3 + 1)%nat
  - (-360 * Rmin 1 0.1)
  = 0.96 * (velocities samplePool !!! (0 * 3 + 1)%nat - (-360 * Rmin 1 0.1)).
Proof.
  apply (confetti_terminal_velocity 1 samplePool 0 samplePool_wellFormed).
  unfold count. lia.
Defined.

Lemma confetti_frames_snoc (n : nat) (deltas : list R) (delta : R) (p : Pool) :
  frames n (deltas ++ [delta]) p = useFrame n true delta (frames n deltas p).
Proof. unfold frames. now rewrite fold_left_app. Qed.

(** The drag does not look at the clock: after any [m] frames, whatever
    their deltas, each horizontal velocity component is the initial one
    times [0.96 ^ m]; the pool keeps its size and its angular
    velocities. *)
Theorem confetti_drag_per_frame :
  forall (deltas : list R) (p : Pool),
    wellFormed count p ->
    let q := frames count deltas p in
    wellFormed count q /\
    rotationSpeeds q = rotationSpeeds p /\
    forall i : nat, (i < count)%nat ->
      velocities q !!! (i * 3)%nat
      = velocities p !!! (i * 3)%nat * 0.96 ^ length deltas /\
      velocities q !!! (i * 3 + 2)%nat
      = velocities p !!! (i * 3 + 2)%nat * 0.96 ^ length deltas.
Proof.
  intros deltas p Hp.
  induction deltas as [|d deltas IH] using rev_ind.
  - simpl. split; [exact Hp|]. split; [reflexivity|]. intros i _. lra.
  - intros q. unfold q. rewrite confetti_frames_snoc.
    simpl in IH. destruct IH as (Hw & Hs & Hv).
    set (q0 := frames count deltas p) in *.
    destruct (loop_spec count (Rmin d 0.1) q0 count Hw (Nat.le_refl _))
      as (Hw' & Hs' & Hdone & _).
    unfold useFrame; simpl negb; cbv iota.
    split; [exact Hw'|]. split; [now rewrite Hs'|].
    intros i Hi. destruct (Hdone i Hi) as (V0 & _ & V2 & _).
    destruct (Hv i Hi) as [E0 E2].
    rewrite V0, V2, E0, E2, length_app. simpl length.
    rewrite Nat.add_1_r. simpl pow. split; ring.
Qed.

Lemma confetti_drag_per_frame_witness :
  velocities (frames count [0.016; 0.5] samplePool) !!! (0 * 3)%nat
  = velocities samplePool !!! (0 * 3)%nat * 0.96 ^ length [0.016; 0.5].
Proof.
  destruct (confetti_drag_per_frame [0.016; 0.5] samplePool
              samplePool_wellFormed) as (_ & _ & H).
  assert (H0 : (0 < count)%nat) by (unfold count; lia).
  destruct (H 0%nat H0) as [E _]. exact E.
Defined.

End ConfettiFacts.

(** ** The flame and the smoke *)

Section FlameFacts.
Import Flame.

#[local] Open Scope R_scope.

Lemma flicker_bounds (time : R) :
  -0.07 <= sin (time * 25) * 0.05 + sin (time * 60) * 0.02 <= 0.07.
Proof.
  pose proof (SIN_bound (time * 25)). pose proof (SIN_bound (time * 60)). lra.
Qed.

(** The candle light.  Its intensity is never negative; while the blown
    amount is within [0, 1] it is at most 1.27; once the blown amount has
    reached 1 it is 0.  The light sways around its place by no more than
    [0.01 + 0.05 * blowing] on either axis. *)
Theorem flame_light_bounded :
  forall (isBlown isBlowing materialRef : bool) (time delta : R) (st : State),
    let st' := useFrame isBlown isBlowing materialRef true time delta st in
    0 <= intensity st' /\
    (0 <= blownUniform st' <= 1 -> intensity st' <= 1.27) /\
    (1 <= blownUniform st' -> intensity st' = 0) /\
    (0 <= blowingUniform st' ->
     Rabs (lightX st') <= 0.01 + 0.05 * blowingUniform st' /\
     Rabs (lightZ st') <= 0.01 + 0.05 * blowingUniform st').
Proof.
  intros isBlown isBlowing materialRef time delta st st'.
  unfold st', useFrame; simpl.
  set (blown' := Cake.lerp (blownUniform st) _ _).
  set (blowing' := Cake.lerp (blowingUniform st) _ _).
  pose proof (flicker_bounds time) as Hf.
  set (flicker := sin (time * 25) * 0.05 + sin (time * 60) * 0.02) in *.
  split; [apply Rmax_l|]. split; [|split].
  - intros Hb. unfold Rmax. destruct (Rle_dec _ _); nra.
  - intros Hb. unfold Rmax. destruct (Rle_dec _ _); nra.
  - intros Hb.
    pose proof (SIN_bound (time * 10)). pose proof (COS_bound (time * 8)).
    split; split_abs; nra.
Qed.

Lemma flame_light_bounded_witness :
  intensity (useFrame true true true true 1 0.1 init) <= 1.27.
Proof.
  apply (flame_light_bounded true true true 1 0.1 init).
  unfold useFrame, Cake.lerp, init; simpl. lra.
Defined.

Lemma flame_frames_snoc (fs : list (bool * bool * R * R))
    (isBlown isBlowing : bool) (time delta : R) (st : State) :
  frames (fs ++ [(isBlown, isBlowing, time, delta)]) st
  = useFrame isBlown isBlowing true true time delta (frames fs st).
Proof.
  revert st. induction fs as [|[[[b bl] t] d] fs IH]; intros st; simpl;
    [reflexivity|apply IH].
Qed.

(** The blown and blowing amounts.  Over frames no longer than a quarter
    of a second, from mount on and whatever the props are in each frame
    (candle lit, blowing, blown, reset, in any order), both stay within
    [0, 1], each frame moves each towards the target of that frame (1
    when the prop is set, 0 when not) without passing it, and the
    uniforms carry them.  A frame longer than a third of a second takes
    the blown amount of a candle just blown from 0 past 1. *)
Theorem flame_amounts_bounded :
  forall (fs : list (bool * bool * R * R)),
    Forall (fun f => 0 <= snd f <= 0.25) fs ->
    let st := frames fs init in
    0 <= blownUniform st <= 1 /\
    0 <= blowingUniform st <= 1 /\
    (forall (isBlown isBlowing : bool) (time delta : R),
       0 <= delta <= 0.25 ->
       let st' := frames (fs ++ [(isBlown, isBlowing, time, delta)]) init in
       (if isBlown then blownUniform st <= blownUniform st' <= 1
        else 0 <= blownUniform st' <= blownUniform st) /\
       (if isBlowing then blowingUniform st <= blowingUniform st' <= 1
        else 0 <= blowingUniform st' <= blowingUniform st) /\
       uBlown st' = blownUniform st' /\
       uBlowing st' = blowingUniform st') /\
    (forall (isBlowing : bool) (time delta : R), 1 / 3 < delta ->
       1 < blownUniform (useFrame true isBlowing true true time delta init)).
Proof.
  intros fs Hfs st.
  assert (Hst : 0 <= blownUniform st <= 1 /\ 0 <= blowingUniform st <= 1).
  { unfold st.
    assert (Hgen : forall s,
              0 <= blownUniform s <= 1 /\ 0 <= blowingUniform s <= 1 ->
              0 <= blownUniform (frames fs s) <= 1 /\
              0 <= blowingUniform (frames fs s) <= 1).
    { clear st.
      induction Hfs as [|[[[b bl] t] d] fs Hd _ IH]; intros s Hs;
        simpl in *.
      - exact Hs.
      - apply IH. unfold useFrame, Cake.lerp; simpl.
        destruct b, bl; split; nra. }
    apply Hgen. simpl. lra. }
  destruct Hst as [Hb Hbl]. split; [exact Hb|]. split; [exact Hbl|]. split.
  - intros isBlown isBlowing time delta Hd st'. unfold st'.
    rewrite flame_frames_snoc.
    fold st. unfold useFrame, Cake.lerp; simpl.
    split; [destruct isBlown; nra|].
    split; [destruct isBlowing; nra|]. now split.
  - intros isBlowing time delta Hd. unfold useFrame, Cake.lerp, init; simpl.
    lra.
Qed.

(** Lit, then blown, then reset. *)
Lemma flame_amounts_bounded_witness :
  0 <= blownUniform (frames [(false, false, 0, 0.016);
                             (true, true, 0.016, 0.016);
                             (false, false, 0.032, 0.016)] init) <= 1.
Proof.
  apply (flame_amounts_bounded [(false, false, 0, 0.016);
                                (true, true, 0.016, 0.016);
                                (false, false, 0.032, 0.016)]).
  repeat constructor; simpl; lra.
Defined.

End FlameFacts.

Section SmokeFacts.
Import Smoke.

#[local] Open Scope R_scope.

Lemma smoke_frames_S (vel0 vel1 vel2 scale0 : R) (n : nat) (st : State) :
  frames vel0 vel1 vel2 scale0 (S n) st
  = useFrame vel0 vel1 vel2 scale0 (frames vel0 vel1 vel2 scale0 n st).
Proof.
  revert st. induction n as [|n IH]; intros st; [reflexivity|].
  change (frames vel0 vel1 vel2 scale0 (S (S n)) st)
    with (frames vel0 vel1 vel2 scale0 (S n)
            (useFrame vel0 vel1 vel2 scale0 st)).
  now rewrite IH.
Qed.

(** A puff of smoke.  Until its timer fires it stays where it was mounted,
    at scale 0.  Once started it moves by its velocity every frame,
    whatever the frame delta, so after [n] frames it is [n] velocities
    away.  From the first frame on its scale follows its height: the
    scale prop plus half the height, less 0.05 (and not below 0) once
    the height is above 1.5, so it dips by 0.05 where the height crosses
    1.5.  With a velocity that does not point down and a scale prop that
    is not negative, the scale is never below that prop: the puff never
    fades out. *)
Theorem smoke_rises_and_stays :
  forall (vel0 vel1 vel2 scale0 : R) (n : nat),
    frames vel0 vel1 vel2 scale0 n mounted = mounted /\
    (let st := frames vel0 vel1 vel2 scale0 n (start mounted) in
     posX st = INR n * vel0 /\ posY st = INR n * vel1 /\ posZ st = INR n * vel2) /\
    ((1 <= n)%nat ->
     let st := frames vel0 vel1 vel2 scale0 n (start mounted) in
     scale st = if Rlt_dec 1.5 (posY st)
                then Rmax 0 (scale0 + posY st * 0.5 - 0.05)
                else scale0 + posY st * 0.5) /\
    (0 <= vel1 -> 0 <= scale0 -> (1 <= n)%nat ->
     scale0 <= scale (frames vel0 vel1 vel2 scale0 n (start mounted))).
Proof.
  intros vel0 vel1 vel2 scale0 n.
  assert (Hpos : forall m,
            let st := frames vel0 vel1 vel2 scale0 m (start mounted) in
            started st = true /\ ref st = true /\
            posX st = INR m * vel0 /\ posY st = INR m * vel1 /\
            posZ st = INR m * vel2).
  { induction m as [|m IH].
    - simpl. repeat split; lra.
    - intros st. unfold st. rewrite smoke_frames_S.
      simpl in IH. destruct IH as (Hs & Hr & Hx & Hy & Hz).
      unfold useFrame. rewrite Hs, Hr. simpl negb. cbv iota. simpl orb.
      cbv iota. cbn [started ref posX posY posZ].
      rewrite Hx, Hy, Hz, S_INR. repeat split; lra. }
  split; [|split; [|split]].
  - induction n as [|n IH]; [reflexivity|].
    rewrite smoke_frames_S, IH. reflexivity.
  - destruct (Hpos n) as (_ & _ & H). exact H.
  - intros Hn st. destruct n as [|m]; [lia|].
    unfold st. rewrite smoke_frames_S.
    destruct (Hpos m) as (Hs & Hr & _).
    unfold useFrame. rewrite Hs, Hr. simpl negb. cbv iota. simpl orb.
    cbv iota. cbn [scale posY]. reflexivity.
  - intros Hv Hs0 Hn. destruct n as [|m]; [lia|].
    rewrite smoke_frames_S.
    destruct (Hpos m) as (Hs & Hr & _ & Hy & _).
    unfold useFrame. rewrite Hs, Hr. simpl negb. cbv iota. simpl orb.
    cbv iota. cbn [scale]. rewrite Hy.
    pose proof (pos_INR m) as Hm.
    assert (Hage : 0 <= INR m * vel1 + vel1) by nra.
    destruct (Rlt_dec 1.5 (INR m * vel1 + vel1)) as [H|H].
    + unfold Rmax. destruct (Rle_dec _ _); lra.
    + lra.
Qed.

Lemma smoke_rises_and_stays_witness :
  0.5 <= scale (frames 0 0.02 0 0.5 3 (start mounted)).
Proof.
  apply (smoke_rises_and_stays 0 0.02 0 0.5 3); [lra|lra|lia].
Defined.

End SmokeFacts.
